(** * discoverygo: a client of the Ticketmaster Discovery API

    A shallow embedding of the Go package [discoverygo] (the client with its
    URL builders, [QueryParams.UpdateURL], [redactUrl], and the paginated
    [PagedResponse] with [NextPage] / [PreviousPage]) together with the parts
    of the Go standard library these functions call: [net/url]'s query
    handling ([url.Values], [ParseQuery], [QueryEscape], [Values.Encode]),
    [URL.String], [URL.JoinPath] and [path.Clean].

    Go strings are byte sequences: they are modelled by [string], whose
    characters are the 256 values of [ascii]. *)

From Stdlib Require Import ZArith NArith Ascii String List Bool Lia DecimalString.
From stdpp Require Import base option list sorting gmap strings.

Local Open Scope string_scope.
Local Open Scope list_scope.

(** ** Bytes *)

Module Byte.

Definition code (c : ascii) : N := N_of_ascii c.

Definition between (lo hi c : ascii) : bool :=
  (code lo <=? code c)%N && (code c <=? code hi)%N.

Definition eqb (a b : ascii) : bool := Ascii.eqb a b.

(** the double quote, byte 0x22 *)
Definition dquote : ascii := ascii_of_N 34.

(** membership of a byte in a Go [switch c { case ...: }] list *)
Fixpoint one_of (cs : string) (c : ascii) : bool :=
  match cs with
  | EmptyString => false
  | String d cs' => eqb c d || one_of cs' c
  end.

(** [ishex] of net/url *)
Definition ishex (c : ascii) : bool :=
  between "0" "9" c || between "a" "f" c || between "A" "F" c.

(** [unhex] of net/url *)
Definition unhex (c : ascii) : N :=
  if between "0" "9" c then (code c - code "0")%N
  else if between "a" "f" c then (code c - code "a" + 10)%N
  else if between "A" "F" c then (code c - code "A" + 10)%N
  else 0%N.

(** [upperhex[n]] for [n < 16] *)
Definition upperhex (n : N) : ascii :=
  if (n <? 10)%N then ascii_of_N (code "0" + n)
  else ascii_of_N (code "A" + (n - 10)).

Definition hi (c : ascii) : N := (code c / 16)%N.
Definition lo (c : ascii) : N := (code c mod 16)%N.

(** [unhex(a)<<4 | unhex(b)] *)
Definition of_hex (a b : ascii) : ascii := ascii_of_N (unhex a * 16 + unhex b).

End Byte.

(** ** Package [strings] *)

Module Strings.

(** [strings.Contains(s, string(c))] for a single byte [c] *)
Fixpoint ContainsByte (c : ascii) (s : string) : bool :=
  match s with
  | EmptyString => false
  | String d s' => Byte.eqb d c || ContainsByte c s'
  end.

(** [strings.Cut(s, string(sep))] for a single byte separator *)
Fixpoint Cut (sep : ascii) (s : string) : string * string * bool :=
  match s with
  | EmptyString => (EmptyString, EmptyString, false)
  | String c s' =>
      if Byte.eqb c sep then (EmptyString, s', true)
      else let '(before, after, found) := Cut sep s' in
           (String c before, after, found)
  end.

(** the pieces of [s] between occurrences of [sep]: what repeated
    [Cut(s, sep)] yields, one piece per round, until nothing is left *)
Fixpoint Split (sep : ascii) (s : string) : list string :=
  match s with
  | EmptyString => [EmptyString]
  | String c s' =>
      if Byte.eqb c sep then EmptyString :: Split sep s'
      else match Split sep s' with
           | piece :: rest => String c piece :: rest
           | [] => [String c EmptyString]
           end
  end.

(** [strings.Join(l, string(sep))] *)
Fixpoint Join (sep : ascii) (l : list string) : string :=
  match l with
  | [] => EmptyString
  | [x] => x
  | x :: rest => x +:+ String sep (Join sep rest)
  end.

Definition HasPrefixByte (c : ascii) (s : string) : bool :=
  match s with
  | String d _ => Byte.eqb d c
  | EmptyString => false
  end.

Fixpoint HasSuffixByte (c : ascii) (s : string) : bool :=
  match s with
  | EmptyString => false
  | String d EmptyString => Byte.eqb d c
  | String _ s' => HasSuffixByte c s'
  end.

(** [strings.Contains(s, sub)], as a proposition *)
Definition Contains (s sub : string) : Prop :=
  ∃ pre post : string, s = pre +:+ sub +:+ post.

End Strings.

(** ** Package [net/url]: escaping *)

Inductive encoding :=
  | encodePath
  | encodePathSegment
  | encodeHost
  | encodeZone
  | encodeUserPassword
  | encodeQueryComponent
  | encodeFragment.

Definition encoding_eqb (a b : encoding) : bool :=
  match a, b with
  | encodePath, encodePath | encodePathSegment, encodePathSegment
  | encodeHost, encodeHost | encodeZone, encodeZone
  | encodeUserPassword, encodeUserPassword
  | encodeQueryComponent, encodeQueryComponent
  | encodeFragment, encodeFragment => true
  | _, _ => false
  end.

(** [shouldEscape(c, mode)]: whether byte [c] is percent-encoded in [mode]. *)
Definition shouldEscape (c : ascii) (mode : encoding) : bool :=
  if Byte.between "a" "z" c || Byte.between "A" "Z" c || Byte.between "0" "9" c
  then false
  else if (encoding_eqb mode encodeHost || encoding_eqb mode encodeZone)
          && (Byte.one_of "!$&'()*+,;=:[]<>" c || Byte.eqb c Byte.dquote)
  then false
  else if Byte.one_of "-_.~" c then false
  else if Byte.one_of "$&+,/:;=?@" c
          && match mode with
             | encodePath | encodePathSegment | encodeUserPassword
             | encodeQueryComponent | encodeFragment => true
             | _ => false
             end
  then match mode with
       | encodePath => Byte.eqb c "?"
       | encodePathSegment => Byte.one_of "/;,?" c
       | encodeUserPassword => Byte.one_of "@/?:" c
       | encodeQueryComponent => true
       | _ => false
       end
  else if encoding_eqb mode encodeFragment && Byte.one_of "!()*" c then false
  else true.

(** [escape(s, mode)] *)
Fixpoint escape (mode : encoding) (s : string) : string :=
  match s with
  | EmptyString => EmptyString
  | String c s' =>
      if shouldEscape c mode then
        if Byte.eqb c " " && encoding_eqb mode encodeQueryComponent
        then String "+" (escape mode s')
        else String "%" (String (Byte.upperhex (Byte.hi c))
                           (String (Byte.upperhex (Byte.lo c)) (escape mode s')))
      else String c (escape mode s')
  end.

(** [unescape(s, mode)] for the modes this package reaches (path, fragment
    and query component; the extra checks of the host and zone modes are
    only met while parsing an authority).  [None] stands for the
    [EscapeError] of a "%" that is not followed by two hex digits. *)
Fixpoint unescape (mode : encoding) (s : string) : option string :=
  match s with
  | EmptyString => Some EmptyString
  | String c rest =>
      if Byte.eqb c "%" then
        match rest with
        | String a (String b rest') =>
            if Byte.ishex a && Byte.ishex b
            then String (Byte.of_hex a b) <$> unescape mode rest'
            else None
        | _ => None
        end
      else if Byte.eqb c "+" && encoding_eqb mode encodeQueryComponent
      then String " " <$> unescape mode rest
      else String c <$> unescape mode rest
  end.

Definition QueryEscape (s : string) : string := escape encodeQueryComponent s.
Definition QueryUnescape (s : string) : option string := unescape encodeQueryComponent s.

(** ** Package [net/url]: query values *)

(** [url.Values] is [map[string][]string]. *)
Abbreviation Values := (gmap string (list string)).

Module Values.

(** [v.Get(key)]'s underlying slice, [v[key]]: [nil] for a missing key *)
Definition at_key (v : Values) (key : string) : list string :=
  default [] (v !! key).

(** [v.Set(key, value)]: [v[key] = []string{value}] ([Set] is a keyword
    of the proof language, hence the underscore) *)
Definition Set_ (v : Values) (key value : string) : Values :=
  <[key := [value]]> v.

(** [v.Add(key, value)]: [v[key] = append(v[key], value)] *)
Definition Add (v : Values) (key value : string) : Values :=
  <[key := at_key v key ++ [value]]> v.

(** [v.Has(key)], also [_, exists := v[key]] *)
Definition Has (v : Values) (key : string) : bool :=
  bool_decide (is_Some (v !! key)).

(** the keys of [v] in increasing byte order: [slices.Sort(keys)] *)
Definition sorted_keys (v : Values) : list string :=
  merge_sort String.le (elements (dom v)).

(** the [key=value] pairs written for one key *)
Definition encode_key (v : Values) (k : string) : list string :=
  (λ x, QueryEscape k +:+ String "=" (QueryEscape x)) <$> at_key v k.

(** [v.Encode()]: the pairs of all keys, sorted by key, joined by "&" *)
Definition Encode (v : Values) : string :=
  Strings.Join "&" (sorted_keys v ≫= encode_key v).

End Values.

(** One round of [parseQuery]'s loop on the piece [key] cut off at "&":
    a piece with a semicolon, an empty piece, and a piece whose key or value
    does not unescape are skipped. *)
Definition parseQuery_step (m : Values) (key : string) : Values :=
  if Strings.ContainsByte ";" key then m
  else if String.eqb key "" then m
  else
    let '(key, value, _) := Strings.Cut "=" key in
    match QueryUnescape key with
    | None => m
    | Some key =>
        match QueryUnescape value with
        | None => m
        | Some value => Values.Add m key value
        end
    end.

(** [ParseQuery(query)]'s map.  Its error result is left out: the only
    caller here, [URL.Query], discards it. *)
Definition ParseQuery (query : string) : Values :=
  foldl parseQuery_step ∅ (Strings.Split "&" query).

(** ** Package [path] *)

Module path.

(** The state of [Clean]'s output buffer: the number of leading ".."
    elements that cannot be backtracked over, and the elements written
    after them, last one first. *)
Definition clean_step (rooted : bool) (st : nat * list string) (e : string)
  : nat * list string :=
  let '(dotdot, out) := st in
  if String.eqb e "" then st
  else if String.eqb e "." then st
  else if String.eqb e ".." then
    match out with
    | _ :: out' => (dotdot, out')
    | [] => if rooted then st else (S dotdot, [])
    end
  else (dotdot, e :: out).

(** [path.Clean] *)
Definition Clean (p : string) : string :=
  if String.eqb p "" then "."
  else
    let rooted := Strings.HasPrefixByte "/" p in
    let '(dotdot, out) := foldl (clean_step rooted) (0, []) (Strings.Split "/" p) in
    let elems := replicate dotdot ".." ++ rev out in
    if rooted then String "/" (Strings.Join "/" elems)
    else match elems with
         | [] => "."
         | _ => Strings.Join "/" elems
         end.

Fixpoint join_buf (buf : string) (elem : list string) : string :=
  match elem with
  | [] => buf
  | e :: rest =>
      if negb (String.eqb buf "") then join_buf (buf +:+ String "/" e) rest
      else if negb (String.eqb e "") then join_buf e rest
      else join_buf buf rest
  end.

(** [path.Join] *)
Definition Join (elem : list string) : string :=
  if forallb (λ e, String.eqb e "") elem then ""
  else Clean (join_buf "" elem).

End path.

(** ** Package [net/url]: URLs *)

Record Userinfo := mkUserinfo {
  username : string;
  password : string;
  passwordSet : bool
}.

Record URL := mkURL {
  Scheme : string;
  Opaque : string;
  User : option Userinfo;
  Host : string;
  Path : string;
  RawPath : string;
  OmitHost : bool;
  ForceQuery : bool;
  RawQuery : string;
  Fragment : string;
  RawFragment : string
}.

Definition with_RawQuery (u : URL) (q : string) : URL :=
  mkURL (Scheme u) (Opaque u) (User u) (Host u) (Path u) (RawPath u)
        (OmitHost u) (ForceQuery u) q (Fragment u) (RawFragment u).

Definition with_Path (u : URL) (p rawp : string) : URL :=
  mkURL (Scheme u) (Opaque u) (User u) (Host u) p rawp
        (OmitHost u) (ForceQuery u) (RawQuery u) (Fragment u) (RawFragment u).

Definition nonempty (s : string) : bool := negb (String.eqb s "").

(** [String] of a non-nil [Userinfo] pointer *)
Definition Userinfo_String (ui : Userinfo) : string :=
  escape encodeUserPassword (username ui)
  +:+ (if passwordSet ui
       then String ":" (escape encodeUserPassword (password ui))
       else "").

(** [validEncoded(s, mode)] *)
Fixpoint validEncoded (s : string) (mode : encoding) : bool :=
  match s with
  | EmptyString => true
  | String c s' =>
      (if Byte.one_of "!$&'()*+,;=:@" c then true
       else if Byte.one_of "[]" c then true
       else if Byte.eqb c "%" then true
       else negb (shouldEscape c mode))
      && validEncoded s' mode
  end.

(** [u.EscapedPath()] *)
Definition EscapedPath (u : URL) : string :=
  if nonempty (RawPath u) && validEncoded (RawPath u) encodePath
     && bool_decide (unescape encodePath (RawPath u) = Some (Path u))
  then RawPath u
  else if String.eqb (Path u) "*" then "*"
  else escape encodePath (Path u).

(** [u.EscapedFragment()] *)
Definition EscapedFragment (u : URL) : string :=
  if nonempty (RawFragment u) && validEncoded (RawFragment u) encodeFragment
     && bool_decide (unescape encodeFragment (RawFragment u) = Some (Fragment u))
  then RawFragment u
  else escape encodeFragment (Fragment u).

(** The part of [u.String()] before the query: scheme, authority and path. *)
Definition String_hier (u : URL) : string :=
  let buf := if nonempty (Scheme u) then Scheme u +:+ ":" else "" in
  if nonempty (Opaque u) then buf +:+ Opaque u
  else
    let buf :=
      if nonempty (Scheme u) || nonempty (Host u) || bool_decide (is_Some (User u)) then
        if OmitHost u && negb (nonempty (Host u)) && bool_decide (User u = None)
        then buf
        else
          let buf :=
            if nonempty (Host u) || nonempty (Path u) || bool_decide (is_Some (User u))
            then buf +:+ "//" else buf in
          let buf :=
            match User u with
            | Some ui => buf +:+ Userinfo_String ui +:+ "@"
            | None => buf
            end in
          if nonempty (Host u) then buf +:+ escape encodeHost (Host u) else buf
      else buf in
    let path := EscapedPath u in
    let buf :=
      if nonempty path && negb (Strings.HasPrefixByte "/" path) && nonempty (Host u)
      then buf +:+ "/" else buf in
    let buf :=
      if negb (nonempty buf)
         && Strings.ContainsByte ":" (Strings.Cut "/" path).1.1
      then buf +:+ "./" else buf in
    buf +:+ path.

(** The query part of [u.String()]. *)
Definition String_query (u : URL) : string :=
  if ForceQuery u || nonempty (RawQuery u) then String "?" (RawQuery u) else "".

(** The fragment part of [u.String()]. *)
Definition String_fragment (u : URL) : string :=
  if nonempty (Fragment u) then String "#" (EscapedFragment u) else "".

(** [u.String()] *)
Definition URL_String (u : URL) : string :=
  String_hier u +:+ String_query u +:+ String_fragment u.

(** [u.Query()]: [v, _ := ParseQuery(u.RawQuery); return v] *)
Definition Query (u : URL) : Values := ParseQuery (RawQuery u).

(** [u.setPath(p)]; the second component tells whether it returned an error
    (then [u] is unchanged). *)
Definition setPath (u : URL) (p : string) : URL * bool :=
  match unescape encodePath p with
  | None => (u, true)
  | Some path =>
      if String.eqb p (escape encodePath path)
      then (with_Path u path "", false)
      else (with_Path u path p, false)
  end.

(** [u.JoinPath(elem...)] (Go 1.20 and later): the escaped path of [u] is
    put in front of the elements, made to start with a slash if it does not
    (the slash being taken off the joined path again); the error of
    [setPath] is dropped, as in the library. *)
Definition JoinPath (u : URL) (elem : list string) : URL :=
  let elem0 := EscapedPath u in
  let rooted := Strings.HasPrefixByte "/" elem0 in
  let elem := (if rooted then elem0 else String "/" elem0) :: elem in
  let p :=
    if rooted then path.Join elem
    else match path.Join elem with
         | String _ rest => rest
         | EmptyString => EmptyString
         end in
  let p :=
    if Strings.HasSuffixByte "/" (List.last elem "")
       && negb (Strings.HasSuffixByte "/" p)
    then p +:+ "/" else p in
  (setPath u p).1.

(** ** Errors *)

(** The [error] values that reach the caller, by their origin. *)
Inductive error :=
  | Errorf (msg : string)          (** built by [fmt.Errorf] *)
  | TransportError (msg : string)  (** a [*url.Error] of [http.Get] *)
  | DecodeError (msg : string).    (** of [json.Decoder.Decode] *)

(** [err.Error()] *)
Definition Error (e : error) : string :=
  match e with
  | Errorf msg | TransportError msg | DecodeError msg => msg
  end.

(** ** Packages [unicode/utf8] and [encoding/json] *)

Module utf8.

(** the table [first]: [0xF0] for ASCII, [0xF1] for an invalid lead byte,
    otherwise the size of the sequence in the low three bits and the index
    of the accepted range of the second byte in the high four *)
Definition first (b : N) : N :=
  (if b <? 0x80 then 0xF0
   else if b <? 0xC2 then 0xF1
   else if b <? 0xE0 then 0x02
   else if b =? 0xE0 then 0x13
   else if b <? 0xED then 0x03
   else if b =? 0xED then 0x23
   else if b <? 0xF0 then 0x03
   else if b =? 0xF0 then 0x34
   else if b <? 0xF4 then 0x04
   else if b =? 0xF4 then 0x44
   else 0xF1)%N.

(** [acceptRanges[i]] as [(lo, hi)] *)
Definition acceptRanges (i : N) : N * N :=
  (if i =? 1 then (0xA0, 0xBF)
   else if i =? 2 then (0x80, 0x9F)
   else if i =? 3 then (0x90, 0xBF)
   else if i =? 4 then (0x80, 0x8F)
   else (0x80, 0xBF))%N.

Definition in_range (r : N * N) (c : ascii) : bool :=
  (r.1 <=? Byte.code c)%N && (Byte.code c <=? r.2)%N.

(** a continuation byte, [locb <= c <= hicb] *)
Definition cont (c : ascii) : bool := in_range (0x80, 0xBF)%N c.

(** U+FFFD, the replacement character, in UTF-8: EF BF BD *)
Definition RuneError : string :=
  String (ascii_of_N 0xEF) (String (ascii_of_N 0xBF) (String (ascii_of_N 0xBD) "")).

(** The number of bytes of the well-formed sequence [s] starts with, as
    [DecodeRuneInString] finds it; [None] where it returns
    [(RuneError, 1)], and for the empty string. *)
Definition decode_size (s : string) : option nat :=
  match s with
  | EmptyString => None
  | String c0 r0 =>
      let x := first (Byte.code c0) in
      if (0xF0 <=? x)%N then (if (x =? 0xF0)%N then Some 1 else None)
      else
        let sz := (x mod 8)%N in
        match r0 with
        | String c1 r1 =>
            if negb (in_range (acceptRanges (x / 16)) c1) then None
            else if (sz <=? 2)%N then Some 2
            else match r1 with
                 | String c2 r2 =>
                     if negb (cont c2) then None
                     else if (sz <=? 3)%N then Some 3
                     else match r2 with
                          | String c3 _ => if cont c3 then Some 4 else None
                          | EmptyString => None
                          end
                 | EmptyString => None
                 end
        | EmptyString => None
        end
  end.

(** Each byte that does not start a well-formed sequence becomes U+FFFD;
    well-formed sequences are kept.  This is what a string looks like
    after [json.Marshal] wrote it and [json.Unmarshal] read it back. *)
Fixpoint coerce (s : string) : string :=
  match s with
  | EmptyString => EmptyString
  | String c0 r0 =>
      match decode_size s, r0 with
      | Some 4, String c1 (String c2 (String c3 r3)) =>
          String c0 (String c1 (String c2 (String c3 (coerce r3))))
      | Some 3, String c1 (String c2 r2) =>
          String c0 (String c1 (String c2 (coerce r2)))
      | Some 2, String c1 r1 => String c0 (String c1 (coerce r1))
      | Some 1, _ => String c0 (coerce r0)
      | _, _ => RuneError +:+ coerce r0
      end
  end.

(** [utf8.ValidString] *)
Definition ValidString (s : string) : Prop := coerce s = s.

End utf8.

(** ** The client and its URL builders *)

(** [DiscoveryApiUrl], parsed *)
Definition DiscoveryApiUrl : URL :=
  mkURL "https" "" None "app.ticketmaster.com" "/discovery/v2" "" false false "" "" "".

Record DiscoveryClient := mkClient {
  ApiUrl : URL;
  ApiKey : string
}.

(** [d.EventsUrl()] *)
Definition EventsUrl (d : DiscoveryClient) : URL :=
  let eventsUrl := JoinPath (ApiUrl d) ["events"] in
  if String.eqb (ApiKey d) "" then eventsUrl
  else
    let q := Query eventsUrl in
    let q := Values.Set_ q "apikey" (ApiKey d) in
    with_RawQuery eventsUrl (Values.Encode q).

(** [d.VenuesUrl()] *)
Definition VenuesUrl (d : DiscoveryClient) : URL :=
  let venuesUrl := JoinPath (ApiUrl d) ["venues"] in
  if String.eqb (ApiKey d) "" then venuesUrl
  else
    let q := Query venuesUrl in
    let q := Values.Set_ q "apikey" (ApiKey d) in
    with_RawQuery venuesUrl (Values.Encode q).

Module QP.

Record QueryParams := mk {
  Id : string;
  Sort : string;
  Page : string;
  Size : string;
  Locale : string;
  Keyword : string;
  IncludeTest : string;
  IncludeTBA : string;
  IncludeTBD : string;
  VenueID : string;
  StartDateTime : string;
  EndDateTime : string;
  CountryCode : string;
  StateCode : string;
  AttractionID : string;
  SegmentID : string;
  SegmentName : string;
  ClassificationID : string;
  ClassificationName : string;
  MarketID : string;
  PromoterID : string;
  DmaID : string;
  LatLong : string;
  Radius : string;
  Unit : string
}.

(** the fields under the names of their [json] tags, in declaration order *)
Definition fields (q : QueryParams) : list (string * string) :=
  [ ("id", Id q); ("sort", Sort q); ("page", Page q); ("size", Size q);
    ("locale", Locale q); ("keyword", Keyword q);
    ("includeTest", IncludeTest q); ("includeTBA", IncludeTBA q);
    ("includeTBD", IncludeTBD q); ("venueId", VenueID q);
    ("startDateTime", StartDateTime q); ("endDateTime", EndDateTime q);
    ("countryCode", CountryCode q); ("stateCode", StateCode q);
    ("attractionId", AttractionID q); ("segmentId", SegmentID q);
    ("segmentName", SegmentName q);
    ("classificationId", ClassificationID q);
    ("classificationName", ClassificationName q);
    ("marketId", MarketID q); ("promoterId", PromoterID q);
    ("dmaId", DmaID q); ("latlong", LatLong q); ("radius", Radius q);
    ("unit", Unit q) ].

(** the wire names *)
Definition names : list string :=
  [ "id"; "sort"; "page"; "size"; "locale"; "keyword"; "includeTest";
    "includeTBA"; "includeTBD"; "venueId"; "startDateTime"; "endDateTime";
    "countryCode"; "stateCode"; "attractionId"; "segmentId"; "segmentName";
    "classificationId"; "classificationName"; "marketId"; "promoterId";
    "dmaId"; "latlong"; "radius"; "unit" ].

Definition empty : QueryParams :=
  mk "" "" "" "" "" "" "" "" "" "" "" "" "" "" "" "" "" "" "" "" "" "" "" "" "".

End QP.

Abbreviation QueryParams := QP.QueryParams.

Module json.

(** [json.Marshal(q)] for a [QueryParams]: the members of the JSON object
    it writes. Every field is tagged [omitempty], so a field holding the
    empty string is left out; the encoder writes U+FFFD for each byte that
    is not part of well-formed UTF-8.  Marshalling a struct of strings
    cannot fail: the error is always [nil]. *)
Definition Marshal (q : QueryParams) : list (string * string) * option error :=
  ((λ kv, (kv.1, utf8.coerce kv.2)) <$> filter (λ kv, kv.2 ≠ "") (QP.fields q),
   None).

(** [json.Unmarshal(inrec, &qp)] into a [map[string]string]: one entry per
    member (a later member of the same name would win).  It cannot fail on
    what [Marshal] wrote. *)
Definition Unmarshal (inrec : list (string * string))
  : gmap string string * option error :=
  (list_to_map (reverse inrec), None).

End json.

(** [q.UpdateURL(u, apikey)].  The loop [for field, val := range qp] visits
    the entries of the map in an order Go leaves open; [map_fold] visits
    them in one order, and each round writes a key of its own, so the order
    makes no difference. *)
Definition UpdateURL (q : QueryParams) (u : URL) (apikey : string)
  : option URL * option error :=
  let '(inrec, err) := json.Marshal q in
  match err with
  | Some e => (None, Some e)
  | None =>
      let '(qp, unmarshalError) := json.Unmarshal inrec in
      match unmarshalError with
      | Some e => (None, Some e)
      | None =>
          let query := Query u in
          let query := Values.Set_ query "apikey" apikey in
          let query :=
            map_fold (λ field val query,
                        if negb (String.eqb val "")
                        then Values.Add query field val else query)
                     query qp in
          (Some (with_RawQuery u (Values.Encode query)), None)
      end
  end.

(** [redactUrl(u)] *)
Definition redactUrl (u : URL) : string :=
  let query := Query u in
  let exists_ := Values.Has query "apikey" in
  let query := if exists_ then Values.Set_ query "apikey" "REDACTED" else query in
  URL_String (with_RawQuery u (Values.Encode query)).

(** ** The response types of models.go *)

#[local] Set Warnings "-register-all".

(** A decoded JSON value ([any]); a number is kept as its literal. *)
Inductive JSON :=
  | JNull
  | JBool (b : bool)
  | JNumber (literal : string)
  | JString (s : string)
  | JArray (l : list JSON)
  | JObject (members : list (string * JSON)).

(** [map[string]any] *)
Definition Document := list (string * JSON).

Record Link := mkLink {
  Href : string;
  Templated : bool
}.

Record Links := mkLinks {
  Self : Link;
  Next : Link;
  Prev : Link
}.

(** Go's [int] is taken as 64 bits wide. *)
Record Page := mkPage {
  Size : Z;
  TotalElements : Z;
  TotalPages : Z;
  Number : Z
}.

Record EmbeddedResponse := mkEmbedded {
  Events : list Document;
  Venues : list Document;
  Attractions : list Document;
  Classifications : list Document
}.

Module PR.
Record PagedResponse := mk {
  Links : Links;
  Page : Page;
  Embedded : EmbeddedResponse
}.
End PR.

Abbreviation PagedResponse := PR.PagedResponse.

(** ** Go's [int] arithmetic and [%d] *)

Definition int_wrap (z : Z) : Z := ((z + 2 ^ 63) mod 2 ^ 64 - 2 ^ 63)%Z.

(** [a * b] on [int]: the product wraps around *)
Definition int_mul (a b : Z) : Z := int_wrap (a * b).

(** the verb [%d] (and [%v]) on an [int] *)
Definition itoa (z : Z) : string := NilZero.string_of_int (Z.to_int z).

(** ** What lies outside the package *)

(** What a server sends back: the status, the bytes the body stream
    delivers, and the error it ends with, if any. *)
Record Reply := mkReply {
  reply_status : Z;
  reply_body : string;
  reply_read_err : option error
}.

(** The three ways [http.Get] returns: a response and no error; no response
    and an error; and, when following redirects is given up, the last
    response (its body already closed) together with an error. *)
Inductive GetResult :=
  | GetOk (r : Reply)
  | GetErr (e : error)
  | GetRedirectErr (r : Reply) (e : error).

(** The network, and the two library functions that are taken as given:
    [base.Parse(ref)] of net/url, which resolves a reference against a base
    URL and returns nil with an error where the reference does not parse, and
    the JSON decoder run on the bytes of a body stream. *)
Record World := mkWorld {
  transport : string → GetResult;
  url_Parse : URL → string → option URL;
  decode_PagedResponse : string → option error → error + PagedResponse;
  decode_Document : string → option error → error + Document
}.

(** ** State and effects *)

Abbreviation loc := positive.

(** the body stream of a response *)
Record Body := mkBody {
  body_data : string;
  body_err : option error;
  body_closed : bool
}.

(** [*http.Response]: the fields used here; [RespBody] names the stream *)
Record Response := mkResponse {
  StatusCode : Z;
  RespBody : loc
}.

Record State := mkState {
  pages : gmap loc PagedResponse;    (** the [PagedResponse] values pointed to *)
  clients : gmap loc DiscoveryClient; (** the [DiscoveryClient] values pointed to *)
  bodies : gmap loc Body;             (** the body streams handed out so far *)
  requests : list string;             (** the URLs given to [http.Get], oldest first *)
  logged : list string                (** the lines written with package [log] *)
}.

Definition set_pages (f : gmap loc PagedResponse → gmap loc PagedResponse) (s : State) :=
  mkState (f (pages s)) (clients s) (bodies s) (requests s) (logged s).
Definition set_bodies (f : gmap loc Body → gmap loc Body) (s : State) :=
  mkState (pages s) (clients s) (f (bodies s)) (requests s) (logged s).
Definition add_request (url : string) (s : State) :=
  mkState (pages s) (clients s) (bodies s) (requests s ++ [url]) (logged s).
Definition add_log (line : string) (s : State) :=
  mkState (pages s) (clients s) (bodies s) (requests s) (logged s ++ [line]).

(** How a call ends: it returns, or it panics. *)
Inductive Res (A : Type) :=
  | Done (a : A)
  | Panic (msg : string).
Arguments Done {A} a.
Arguments Panic {A} msg.

Definition M (A : Type) : Type := State → Res A * State.

Definition ret {A} (a : A) : M A := λ s, (Done a, s).

Definition bind {A B} (k : A → M B) (m : M A) : M B := λ s,
  match m s with
  | (Done a, s') => k a s'
  | (Panic msg, s') => (Panic msg, s')
  end.

#[global] Instance M_ret : MRet M := @ret.
#[global] Instance M_bind : MBind M := @bind.

Definition nil_dereference : string :=
  "runtime error: invalid memory address or nil pointer dereference".

Definition panic {A} (msg : string) : M A := λ s, (Panic msg, s).

(** [*p] for a [*PagedResponse]; a pointer to nothing is nil *)
Definition load_page (p : loc) : M PagedResponse := λ s,
  match pages s !! p with
  | Some v => (Done v, s)
  | None => (Panic nil_dereference, s)
  end.

(** [*d] for a [*DiscoveryClient] *)
Definition load_client (d : loc) : M DiscoveryClient := λ s,
  match clients s !! d with
  | Some v => (Done v, s)
  | None => (Panic nil_dereference, s)
  end.

(** [&rs] for a local [rs] that outlives the call: a new object *)
Definition new_page (rs : PagedResponse) : M loc := λ s,
  let l := fresh (dom (pages s)) in
  (Done l, set_pages (insert l rs) s).

(** [log.Println] and [log.Printf]: the text of the line *)
Definition log_line (line : string) : M unit := λ s, (Done tt, add_log line s).

(** [http.Get(url)] *)
Definition http_Get (w : World) (url : string) : M (option Response * option error) := λ s,
  let s := add_request url s in
  let h := fresh (dom (bodies s)) in
  match transport w url with
  | GetOk r =>
      (Done (Some (mkResponse (reply_status r) h), None),
       set_bodies (insert h (mkBody (reply_body r) (reply_read_err r) false)) s)
  | GetErr e => (Done (None, Some e), s)
  | GetRedirectErr r e =>
      (Done (Some (mkResponse (reply_status r) h), Some e),
       set_bodies (insert h (mkBody (reply_body r) (reply_read_err r) true)) s)
  end.

(** [resp.Body.Close()] *)
Definition Body_Close (h : loc) : M unit := λ s,
  (Done tt, set_bodies (alter (λ b, mkBody (body_data b) (body_err b) true) h) s).

(** [io.ReadAll(resp.Body)]: the bytes read, and the error that stopped it *)
Definition io_ReadAll (h : loc) : M (string * option error) := λ s,
  match bodies s !! h with
  | Some b => (Done (body_data b, body_err b), s)
  | None => (Panic nil_dereference, s)
  end.

(** [json.NewDecoder(resp.Body).Decode(&rs)] for [rs] a [PagedResponse] *)
Definition Decode_PagedResponse (w : World) (h : loc) : M (error + PagedResponse) := λ s,
  match bodies s !! h with
  | Some b => (Done (decode_PagedResponse w (body_data b) (body_err b)), s)
  | None => (Panic nil_dereference, s)
  end.

(** [json.NewDecoder(resp.Body).Decode(&rs)] for [rs] a [map[string]any] *)
Definition Decode_Document (w : World) (h : loc) : M (error + Document) := λ s,
  match bodies s !! h with
  | Some b => (Done (decode_Document w (body_data b) (body_err b)), s)
  | None => (Panic nil_dereference, s)
  end.

(** [defer cleanup] followed by the rest of the function: the deferred call
    runs when the function returns, and also when it panics. *)
Definition defer {A} (cleanup : M unit) (rest : M A) : M A := λ s,
  let '(r, s') := rest s in
  match cleanup s' with
  | (Done _, s'') => (r, s'')
  | (Panic msg, s'') => (Panic msg, s'')
  end.

(** ** The request-issuing operations *)

(** In each of them, [resp] and [err] are what [http.Get] returned, and the
    statement [defer resp.Body.Close()] comes first: it evaluates
    [resp.Body], which panics when [resp] is nil, and registers the call of
    [Close] for the time the function returns. *)

(** [p.NextPage(client)] *)
Definition NextPage (w : World) (p client : loc) : M (option loc * option error) :=
  pv ← load_page p;
  if (1000 <=? int_mul (Size (PR.Page pv)) (Number (PR.Page pv)))%Z then
    pv ← load_page p;
    mret (None, Some (Errorf ("Max page depth reached ("
                              +:+ itoa (int_mul (Size (PR.Page pv)) (Number (PR.Page pv)))
                              +:+ ")")))
  else
    c ← load_client client;
    let baseUrl := ApiUrl c in
    pv ← load_page p;
    if String.eqb (Href (Next (PR.Links pv))) "" then mret (None, None)
    else
      pv ← load_page p;
      let rel := url_Parse w baseUrl (Href (Next (PR.Links pv))) in
      match rel with
      | None => panic nil_dereference
      | Some rel =>
          let q := Query rel in
          c ← load_client client;
          let q := Values.Set_ q "apikey" (ApiKey c) in
          let rel := with_RawQuery rel (Values.Encode q) in
          '(resp, err) ← http_Get w (URL_String rel);
          match resp with
          | None => panic nil_dereference
          | Some resp =>
              defer (Body_Close (RespBody resp))
                match err with
                | Some err => log_line (Error err);; mret (None, Some err)
                | None =>
                    log_line ("Status code: " +:+ itoa (StatusCode resp));;
                    if negb (StatusCode resp =? 200)%Z then
                      '(body, _) ← io_ReadAll (RespBody resp);
                      mret (None, Some (Errorf ("Status code: "
                                                +:+ itoa (StatusCode resp)
                                                +:+ ": " +:+ body)))
                    else
                      decoded ← Decode_PagedResponse w (RespBody resp);
                      match decoded with
                      | inl decodeErr =>
                          log_line (Error decodeErr);; mret (None, Some decodeErr)
                      | inr rs => l ← new_page rs; mret (Some l, None)
                      end
                end
          end
      end.

(** [p.PreviousPage(client)] *)
Definition PreviousPage (w : World) (p client : loc) : M (option loc * option error) :=
  pv ← load_page p;
  if (1000 <=? int_mul (Size (PR.Page pv)) (Number (PR.Page pv)))%Z then
    pv ← load_page p;
    mret (None, Some (Errorf ("Max page depth reached ("
                              +:+ itoa (int_mul (Size (PR.Page pv)) (Number (PR.Page pv)))
                              +:+ ")")))
  else
    c ← load_client client;
    let baseUrl := ApiUrl c in
    pv ← load_page p;
    if String.eqb (Href (Prev (PR.Links pv))) "" then mret (None, None)
    else
      pv ← load_page p;
      let rel := url_Parse w baseUrl (Href (Prev (PR.Links pv))) in
      match rel with
      | None => panic nil_dereference
      | Some rel =>
          let q := Query rel in
          c ← load_client client;
          let q := Values.Set_ q "apikey" (ApiKey c) in
          let rel := with_RawQuery rel (Values.Encode q) in
          '(resp, err) ← http_Get w (URL_String rel);
          match resp with
          | None => panic nil_dereference
          | Some resp =>
              defer (Body_Close (RespBody resp))
                match err with
                | Some err => log_line (Error err);; mret (None, Some err)
                | None =>
                    log_line ("Status code: " +:+ itoa (StatusCode resp));;
                    if negb (StatusCode resp =? 200)%Z then
                      '(body, _) ← io_ReadAll (RespBody resp);
                      mret (None, Some (Errorf ("Status code: "
                                                +:+ itoa (StatusCode resp)
                                                +:+ ": " +:+ body)))
                    else
                      decoded ← Decode_PagedResponse w (RespBody resp);
                      match decoded with
                      | inl decodeErr =>
                          log_line (Error decodeErr);; mret (None, Some decodeErr)
                      | inr rs => l ← new_page rs; mret (Some l, None)
                      end
                end
          end
      end.

(** [d.GetEvent(id)]; the result stands for the map the returned pointer
    points to. *)
Definition GetEvent (w : World) (d : loc) (id : string)
  : M (option Document * option error) :=
  c ← load_client d;
  let baseEventUrl := EventsUrl c in
  let eventUrl := JoinPath baseEventUrl [id] in
  log_line ("Querying: " +:+ URL_String eventUrl);;
  '(resp, err) ← http_Get w (URL_String eventUrl);
  match resp with
  | None => panic nil_dereference
  | Some resp =>
      defer (Body_Close (RespBody resp))
        match err with
        | Some err => log_line (Error err);; mret (None, Some err)
        | None =>
            log_line ("Status code: " +:+ itoa (StatusCode resp));;
            if negb (StatusCode resp =? 200)%Z then
              '(body, _) ← io_ReadAll (RespBody resp);
              mret (None, Some (Errorf ("Status code: " +:+ itoa (StatusCode resp)
                                        +:+ ": " +:+ body)))
            else
              decoded ← Decode_Document w (RespBody resp);
              match decoded with
              | inl decodeErr =>
                  log_line (Error decodeErr);; mret (None, Some decodeErr)
              | inr rs => mret (Some rs, None)
              end
        end
  end.

(** [d.SearchEvents(queryParams)] *)
Definition SearchEvents (w : World) (d : loc) (queryParams : QueryParams)
  : M (option loc * option error) :=
  c ← load_client d;
  let '(eventsUrl, err) := UpdateURL queryParams (EventsUrl c) (ApiKey c) in
  match err, eventsUrl with
  | Some err, _ => mret (None, Some err)
  | None, None => panic nil_dereference
  | None, Some eventsUrl =>
      '(resp, err) ← http_Get w (URL_String eventsUrl);
      match resp with
      | None => panic nil_dereference
      | Some resp =>
          defer (Body_Close (RespBody resp))
            match err with
            | Some err => log_line (Error err);; mret (None, Some err)
            | None =>
                log_line ("Status code: " +:+ itoa (StatusCode resp));;
                if negb (StatusCode resp =? 200)%Z then
                  '(body, _) ← io_ReadAll (RespBody resp);
                  mret (None, Some (Errorf ("Status code: "
                                            +:+ itoa (StatusCode resp)
                                            +:+ ": " +:+ body)))
                else
                  decoded ← Decode_PagedResponse w (RespBody resp);
                  match decoded with
                  | inl decodeErr =>
                      log_line (Error decodeErr);; mret (None, Some decodeErr)
                  | inr rs => l ← new_page rs; mret (Some l, None)
                  end
            end
      end
  end.

(** * The vocabulary of the properties *)

(** the message of the depth guard *)
Definition depth_error (pv : PagedResponse) : error :=
  Errorf ("Max page depth reached ("
          +:+ itoa (int_mul (Size (PR.Page pv)) (Number (PR.Page pv))) +:+ ")").

(** the error built for a status other than 200 *)
Definition status_error (code : Z) (body : string) : error :=
  Errorf ("Status code: " +:+ itoa code +:+ ": " +:+ body).

(** one round of the loop of [UpdateURL] *)
Definition add_field (field val : string) (query : Values) : Values :=
  if negb (String.eqb val "") then Values.Add query field val else query.

(** the query values [UpdateURL] encodes ([UpdateURL_eq]) *)
Definition updated_query (q : QueryParams) (u : URL) (apikey : string) : Values :=
  map_fold add_field (Values.Set_ (Query u) "apikey" apikey)
           (json.Unmarshal (json.Marshal q).1).1.

(** The body of a reply once it is closed. *)
Definition closed_body (r : Reply) : Body :=
  mkBody (reply_body r) (reply_read_err r) true.

Definition status_line (r : Reply) : string := "Status code: " +:+ itoa (reply_status r).

(** The state a request leaves when a response came back: the new pages,
    the body of the reply, closed, under a fresh name, the URL added to the
    requests, and the lines logged. *)
Definition after_request (s : State) (url : string) (r : Reply)
    (new_pages : gmap loc PagedResponse) (lines : list string) : State :=
  mkState new_pages (clients s)
          (<[fresh (dom (bodies s)) := closed_body r]> (bodies s))
          (requests s ++ [url]) (logged s ++ lines).

(** What [SearchEvents], [NextPage] and [PreviousPage] do from [http.Get]
    on, written out in one step: the result and the final state for each
    answer of the network.  That the operations compute this is proved below
    ([SearchEvents_run], [NextPage_run], [PreviousPage_run]). *)
Definition paged_request (w : World) (url : string) (s : State)
  : Res (option loc * option error) * State :=
  match transport w url with
  | GetErr e => (Panic nil_dereference, add_request url s)
  | GetRedirectErr r e =>
      (Done (None, Some e), after_request s url r (pages s) [Error e])
  | GetOk r =>
      if (reply_status r =? 200)%Z then
        match decode_PagedResponse w (reply_body r) (reply_read_err r) with
        | inl e =>
            (Done (None, Some e),
             after_request s url r (pages s) [status_line r; Error e])
        | inr rs =>
            (Done (Some (fresh (dom (pages s))), None),
             after_request s url r (<[fresh (dom (pages s)) := rs]> (pages s))
                           [status_line r])
        end
      else
        (Done (None, Some (status_error (reply_status r) (reply_body r))),
         after_request s url r (pages s) [status_line r])
  end.

(** The same for [GetEvent], which decodes a document ([GetEvent_run]). *)
Definition document_request (w : World) (url : string) (s : State)
  : Res (option Document * option error) * State :=
  match transport w url with
  | GetErr e => (Panic nil_dereference, add_request url s)
  | GetRedirectErr r e =>
      (Done (None, Some e), after_request s url r (pages s) [Error e])
  | GetOk r =>
      if (reply_status r =? 200)%Z then
        match decode_Document w (reply_body r) (reply_read_err r) with
        | inl e =>
            (Done (None, Some e),
             after_request s url r (pages s) [status_line r; Error e])
        | inr rs =>
            (Done (Some rs, None), after_request s url r (pages s) [status_line r])
        end
      else
        (Done (None, Some (status_error (reply_status r) (reply_body r))),
         after_request s url r (pages s) [status_line r])
  end.

(** the URL [NextPage] and [PreviousPage] request for the link [href] *)
Definition page_url (w : World) (c : DiscoveryClient) (href : string) : option string :=
  rel ← url_Parse w (ApiUrl c) href;
  Some (URL_String (with_RawQuery rel
          (Values.Encode (Values.Set_ (Query rel) "apikey" (ApiKey c))))).

(** [NextPage] and [PreviousPage] written out in one step, for the link
    they read ([NextPage_run], [PreviousPage_run]) *)
Definition turn_page (w : World) (p client : loc) (link : Links → Link) (s : State)
  : Res (option loc * option error) * State :=
  match pages s !! p with
  | None => (Panic nil_dereference, s)
  | Some pv =>
      if (1000 <=? int_mul (Size (PR.Page pv)) (Number (PR.Page pv)))%Z
      then (Done (None, Some (depth_error pv)), s)
      else match clients s !! client with
           | None => (Panic nil_dereference, s)
           | Some c =>
               if String.eqb (Href (link (PR.Links pv))) "" then (Done (None, None), s)
               else match page_url w c (Href (link (PR.Links pv))) with
                    | None => (Panic nil_dereference, s)
                    | Some url => paged_request w url s
                    end
           end
  end.

(** the call that took the state from [s] to [s'] made one request, for [url] *)
Definition requested (s s' : State) (url : string) : Prop :=
  requests s' = requests s ++ [url].

(** What it means for a call that takes the state from [s] to [s'] to close
    what it opened: every body stream that exists in [s'] and did not in
    [s] is closed; and if the call made a request that was answered without
    a transport error (the cases of success, of a status other than 200 and
    of a body that does not decode), the body of that reply is among them. *)
Definition closed_since (w : World) (s s' : State) : Prop :=
  (∀ h b, bodies s' !! h = Some b → bodies s !! h = None → body_closed b = true)
  ∧ (∀ url r, requested s s' url → transport w url = GetOk r →
       ∃ h, bodies s !! h = None ∧ bodies s' !! h = Some (closed_body r)).

(** What a pagination call that took the state from [s] to [s'] and ended
    in [r] left alone: the receiver [p] and the client are as before, and so
    is every page that existed; and a call that returned a page returned a
    new one, holding what the decoder made of the body of the reply to the
    one request of the call. *)
Definition left_alone (w : World) (p client : loc) (s : State)
    (out : Res (option loc * option error) * State) : Prop :=
  let r := out.1 in
  let s' := out.2 in
  pages s' !! p = pages s !! p
  ∧ clients s' !! client = clients s !! client
  ∧ clients s' = clients s
  ∧ (∀ l, is_Some (pages s !! l) → pages s' !! l = pages s !! l)
  ∧ (∀ l, r = Done (Some l, None) →
       pages s !! l = None
       ∧ l ≠ p
       ∧ ∃ url reply rs,
           requested s s' url
           ∧ transport w url = GetOk reply
           ∧ decode_PagedResponse w (reply_body reply) (reply_read_err reply) = inr rs
           ∧ pages s' !! l = Some rs).

(** [p] with [Links.Prev] set to [p]'s [Links.Next] *)
Definition prev_from_next (pv : PagedResponse) : PagedResponse :=
  PR.mk (mkLinks (Self (PR.Links pv)) (Next (PR.Links pv)) (Next (PR.Links pv)))
        (PR.Page pv) (PR.Embedded pv).

(** the state in which the page at [p] has been so rewritten *)
Definition rewire (p : loc) (s : State) : State :=
  set_pages (alter prev_from_next p) s.

(** A map of query values in which every key holds at least one value:
    what [ParseQuery], [Set] and [Add] build. *)
Definition proper (v : Values) : Prop := ∀ k, v !! k ≠ Some [].

(** [u] and [u'] differ at most in their path *)
Definition same_but_path (u u' : URL) : Prop :=
  Scheme u' = Scheme u ∧ Opaque u' = Opaque u ∧ User u' = User u
  ∧ Host u' = Host u ∧ OmitHost u' = OmitHost u ∧ ForceQuery u' = ForceQuery u
  ∧ RawQuery u' = RawQuery u
  ∧ Fragment u' = Fragment u ∧ RawFragment u' = RawFragment u.

(** the query parameter [key] of [u], as [u.Query()] finds it: [None] when
    the query string of [u] has no such parameter *)
Definition param (u : URL) (key : string) : option (list string) := Query u !! key.

(** every byte of [s] satisfies [P] *)
Fixpoint all_bytes (P : ascii → bool) (s : string) : bool :=
  match s with
  | EmptyString => true
  | String c s' => P c && all_bytes P s'
  end.

(** a byte that [URL.String] writes in a path as it is *)
Definition path_safe (c : ascii) : bool := negb (shouldEscape c encodePath).

(** a path segment with nothing to escape or to clean away: not empty,
    neither "." nor "..", and made of bytes that need no escaping and are
    not slashes *)
Definition plain_segment (e : string) : Prop :=
  e ≠ "" ∧ e ≠ "." ∧ e ≠ ".."
  ∧ all_bytes (λ c, path_safe c && negb (Byte.eqb c "/")) e = true.

(** the path [/e1/e2/.../en] *)
Definition rooted_path (segs : list string) : string :=
  String "/" (Strings.Join "/" segs).

(** What [EventsUrl] and [VenuesUrl] do for the segment [name]: the URL is
    [ApiUrl.JoinPath(name)] but for its query, so for a base path of plain
    segments it is that path with [name] appended; with a key, the query is
    the one of [ApiUrl] with [apikey] set to the key; without, it is the
    query string of [ApiUrl] itself. *)
Definition endpoint_of (d : DiscoveryClient) (name : string) (u : URL) : Prop :=
  with_RawQuery u "" = with_RawQuery (JoinPath (ApiUrl d) [name]) ""
  ∧ (∀ segs, RawPath (ApiUrl d) = "" → Path (ApiUrl d) = rooted_path segs →
       Forall plain_segment segs →
       Path u = rooted_path (segs ++ [name]))
  ∧ (ApiKey d ≠ "" →
       Query u = <["apikey" := [ApiKey d]]> (Query (ApiUrl d))
       ∧ param u "apikey" = Some [ApiKey d])
  ∧ (ApiKey d = "" →
       RawQuery u = RawQuery (ApiUrl d)
       ∧ param u "apikey" = param (ApiUrl d) "apikey").

(** ** Test doubles, for the closed examples *)

Module Mock.

(** resolves a reference of the form [/path?query] against [base] *)
Definition resolve (base : URL) (ref : string) : option URL :=
  let '(p, q, _) := Strings.Cut "?" ref in
  Some (with_RawQuery (with_Path base p "") q).

Definition no_links : Links :=
  mkLinks (mkLink "" false) (mkLink "" false) (mkLink "" false).

Definition nothing : EmbeddedResponse := mkEmbedded [] [] [] [].

(** a decoder that understands one body, the empty object *)
Definition decode_page (data : string) (err : option error) : error + PagedResponse :=
  if String.eqb data "{}" then inr (PR.mk no_links (mkPage 0 0 0 0) nothing)
  else inl (DecodeError "invalid character").

Definition decode_doc (data : string) (err : option error) : error + Document :=
  if String.eqb data "{}" then inr [] else inl (DecodeError "invalid character").

(** a world whose network answers every request the same way *)
Definition world (answer : GetResult) : World :=
  mkWorld (λ _, answer) resolve decode_page decode_doc.

Definition refused : error :=
  TransportError "dial tcp: connect: connection refused".

Definition client : DiscoveryClient := mkClient DiscoveryApiUrl "k3y".

(** a state with one page at address 1 and one client at address 1 *)
Definition state (pv : PagedResponse) : State :=
  mkState {[ 1%positive := pv ]} {[ 1%positive := client ]} ∅ [] [].

Definition page (size number : Z) (next prev : string) : PagedResponse :=
  PR.mk (mkLinks (mkLink "" false) (mkLink next false) (mkLink prev false))
        (mkPage size 200 10 number) nothing.

End Mock.

(** * Further vocabulary *)

(** the call that took the state from [s] to [s'] made its request, and the
    network answered it with the reply [r] and no error *)
Definition answered (w : World) (s s' : State) (r : Reply) : Prop :=
  ∃ url, requested s s' url ∧ transport w url = GetOk r.

(** the same, for [http.Get] returning both a response and an error (a
    redirect that could not be followed) *)
Definition answered_with_error (w : World) (s s' : State) (r : Reply) (e : error) : Prop :=
  ∃ url, requested s s' url ∧ transport w url = GetRedirectErr r e.

(** [q := u.Query(); q.Set("apikey", key); u.RawQuery = q.Encode()], the
    three statements [NextPage] and [PreviousPage] apply to the resolved
    link *)
Definition with_key (u : URL) (key : string) : URL :=
  with_RawQuery u (Values.Encode (Values.Set_ (Query u) "apikey" key)).

(** What [NextPage] ([link] is [Next]) and [PreviousPage] ([Prev]) need to
    get as far as their request: a receiver below the depth limit, a client
    [c], a link that is not empty and that resolves, to [rel], against the
    client's base URL. *)
Definition turns_to (w : World) (s : State) (p client : loc) (link : Links → Link)
    (c : DiscoveryClient) (rel : URL) : Prop :=
  ∃ pv, pages s !! p = Some pv
        ∧ (int_mul (Size (PR.Page pv)) (Number (PR.Page pv)) < 1000)%Z
        ∧ clients s !! client = Some c
        ∧ Href (link (PR.Links pv)) ≠ ""
        ∧ url_Parse w (ApiUrl c) (Href (link (PR.Links pv))) = Some rel.

(** ** A resolver that refuses what does not parse *)

Module Strict.

(** as [Mock.resolve], but a path with a malformed escape is an error, as it
    is for [url.Parse] *)
Definition resolve (base : URL) (ref : string) : option URL :=
  let '(p, q, _) := Strings.Cut "?" ref in
  match unescape encodePath p with
  | None => None
  | Some path => Some (with_RawQuery (setPath base p).1 q)
  end.

Definition world (answer : GetResult) : World :=
  mkWorld (λ _, answer) resolve Mock.decode_page Mock.decode_doc.

End Strict.

(** ** The loop of [UpdateURL], in a given order *)

(** [q.UpdateURL(u, apikey)] with the loop [for field, val := range qp]
    taking the entries of the map in the order of the list [order] (a run of
    the Go program takes them in some order, a different one from run to
    run) *)
Definition UpdateURL_ranging (order : list (string * string))
    (q : QueryParams) (u : URL) (apikey : string) : option URL * option error :=
  let '(inrec, err) := json.Marshal q in
  match err with
  | Some e => (None, Some e)
  | None =>
      let '(qp, unmarshalError) := json.Unmarshal inrec in
      match unmarshalError with
      | Some e => (None, Some e)
      | None =>
          let query := Query u in
          let query := Values.Set_ query "apikey" apikey in
          let query :=
            foldl (λ query '(field, val),
                     if negb (String.eqb val "")
                     then Values.Add query field val else query)
                  query order in
          (Some (with_RawQuery u (Values.Encode query)), None)
      end
  end.

(** ** What the pagination calls read of the receiver *)

(** the state in which the receiver [p] holds [pv'] *)
Definition with_page (p : loc) (pv' : PagedResponse) (s : State) : State :=
  set_pages (insert p pv') s.

(** [pv] and [pv'] agree on the size and the number of the page and on the
    href of the link [link] *)
Definition same_reading (link : Links → Link) (pv pv' : PagedResponse) : Prop :=
  Size (PR.Page pv') = Size (PR.Page pv)
  ∧ Number (PR.Page pv') = Number (PR.Page pv)
  ∧ Href (link (PR.Links pv')) = Href (link (PR.Links pv)).

(** * Properties *)

(** ** Settings and tactics *)

Arguments URL_String : simpl never.
Arguments Values.Encode : simpl never.
Arguments Values.Set_ : simpl never.
Arguments Query : simpl never.
Arguments JoinPath : simpl never.
Arguments EventsUrl : simpl never.
Arguments itoa : simpl never.
Arguments UpdateURL : simpl never.
Arguments int_mul : simpl never.

Ltac run_monad :=
  unfold mbind, M_bind, bind, mret, M_ret, ret, panic, load_page, load_client,
    http_Get, defer, Body_Close, log_line, io_ReadAll,
    Decode_PagedResponse, Decode_Document, new_page.

Ltac run_request :=
  run_monad; unfold paged_request, document_request, after_request, add_request,
    add_log, set_bodies, set_pages, status_line, status_error, closed_body; simpl;
  repeat (case_match; simpl in *;
          rewrite ?lookup_insert_eq, ?alter_insert_eq, <- ?app_assoc in *;
          simplify_eq/=);
  rewrite ?lookup_insert_eq, ?alter_insert_eq, <- ?app_assoc; simpl;
  try reflexivity.

Ltac each_byte c :=
  destruct c as [[] [] [] [] [] [] [] []].

Ltac by_computation := apply (bool_decide_unpack _); vm_compute; exact I.

(** ** Strings *)

Lemma append_cons (x : ascii) (a b : string) : String x a +:+ b = String x (a +:+ b).
Proof. reflexivity. Qed.

Lemma append_nil_l (a : string) : "" +:+ a = a.
Proof. reflexivity. Qed.

Lemma append_assoc (a b c : string) : (a +:+ b) +:+ c = a +:+ (b +:+ c).
Proof.
  induction a as [|x a IH]; [reflexivity|].
  rewrite !append_cons. f_equal. exact IH.
Qed.

Lemma append_nil_r (a : string) : a +:+ "" = a.
Proof.
  induction a as [|x a IH]; [reflexivity|].
  rewrite append_cons. f_equal. exact IH.
Qed.

Lemma Byte_eqb_eq (a b : ascii) : Byte.eqb a b = true ↔ a = b.
Proof. apply Ascii.eqb_eq. Qed.

Lemma Byte_eqb_refl (a : ascii) : Byte.eqb a a = true.
Proof. apply Ascii.eqb_refl. Qed.

Lemma ContainsByte_app c a b :
  Strings.ContainsByte c (a +:+ b) = Strings.ContainsByte c a || Strings.ContainsByte c b.
Proof.
  induction a as [|x a IH]; [reflexivity |].
  rewrite append_cons. simpl. rewrite IH. by rewrite orb_assoc.
Qed.

Lemma Split_no_sep sep s :
  Strings.ContainsByte sep s = false → Strings.Split sep s = [s].
Proof.
  induction s as [|c s IH]; [reflexivity |]. simpl.
  intros [Hc Hs]%orb_false_iff. rewrite Hc, (IH Hs). reflexivity.
Qed.

Lemma Split_app_sep sep a b :
  Strings.ContainsByte sep a = false →
  Strings.Split sep (a +:+ String sep b) = a :: Strings.Split sep b.
Proof.
  induction a as [|c a IH]; intros Ha.
  - rewrite append_nil_l. simpl. by rewrite Byte_eqb_refl.
  - simpl in Ha. apply orb_false_iff in Ha as [Hc Ha].
    rewrite append_cons. simpl. rewrite Hc, (IH Ha). reflexivity.
Qed.

Lemma Split_cons_sep sep s :
  Strings.Split sep (String sep s) = "" :: Strings.Split sep s.
Proof. simpl. by rewrite Byte_eqb_refl. Qed.

Lemma Split_Join sep (l : list string) :
  l ≠ [] →
  Forall (λ x, Strings.ContainsByte sep x = false) l →
  Strings.Split sep (Strings.Join sep l) = l.
Proof.
  intros Hne Hall. induction Hall as [|x l Hx Hl IH]; [done |].
  destruct l as [|y l].
  - simpl. by apply Split_no_sep.
  - change (Strings.Join sep (x :: y :: l))
      with (x +:+ String sep (Strings.Join sep (y :: l))).
    rewrite Split_app_sep by done. f_equal. by apply IH.
Qed.

Lemma Cut_app_sep sep a b :
  Strings.ContainsByte sep a = false →
  Strings.Cut sep (a +:+ String sep b) = (a, b, true).
Proof.
  induction a as [|c a IH]; intros Ha.
  - rewrite append_nil_l. simpl. by rewrite Byte_eqb_refl.
  - simpl in Ha. apply orb_false_iff in Ha as [Hc Ha].
    rewrite append_cons. simpl. rewrite Hc, (IH Ha). reflexivity.
Qed.

(** ** Escaping a query component and back *)

(** One byte, escaped and followed by anything, unescapes to itself. *)
Lemma unescape_escape_byte (c : ascii) (rest : string) :
  QueryUnescape (QueryEscape (String c "") +:+ rest)
  = String c <$> QueryUnescape rest.
Proof. each_byte c; reflexivity. Qed.

Lemma escape_cons mode c s :
  escape mode (String c s) = escape mode (String c "") +:+ escape mode s.
Proof.
  simpl. destruct (shouldEscape c mode); [| reflexivity].
  destruct (Byte.eqb c " " && encoding_eqb mode encodeQueryComponent); reflexivity.
Qed.

(** [QueryUnescape(QueryEscape(s)) == s] *)
Lemma QueryUnescape_QueryEscape (s : string) :
  QueryUnescape (QueryEscape s) = Some s.
Proof.
  induction s as [|c s IH]; [reflexivity |].
  unfold QueryEscape in *. rewrite escape_cons.
  fold (QueryEscape (String c "")).
  rewrite unescape_escape_byte. by rewrite IH.
Qed.

(** An escaped query component holds none of the separators. *)
Lemma QueryEscape_byte_clean (c : ascii) :
  Strings.ContainsByte "&" (QueryEscape (String c "")) = false
  ∧ Strings.ContainsByte ";" (QueryEscape (String c "")) = false
  ∧ Strings.ContainsByte "=" (QueryEscape (String c "")) = false.
Proof. each_byte c; repeat split; reflexivity. Qed.

Lemma QueryEscape_clean (s : string) :
  Strings.ContainsByte "&" (QueryEscape s) = false
  ∧ Strings.ContainsByte ";" (QueryEscape s) = false
  ∧ Strings.ContainsByte "=" (QueryEscape s) = false.
Proof.
  induction s as [|c s (IH1 & IH2 & IH3)]; [done |].
  unfold QueryEscape in *. rewrite escape_cons, !ContainsByte_app.
  destruct (QueryEscape_byte_clean c) as (H1 & H2 & H3). unfold QueryEscape in *.
  by rewrite H1, H2, H3, IH1, IH2, IH3.
Qed.

(** ** Parsing what [Encode] wrote *)

Lemma app_sep_not_empty a c b : String.eqb (a +:+ String c b) "" = false.
Proof. by destruct a. Qed.

Lemma parseQuery_step_pair (m : Values) (k x : string) :
  parseQuery_step m (QueryEscape k +:+ String "=" (QueryEscape x)) = Values.Add m k x.
Proof.
  unfold parseQuery_step.
  destruct (QueryEscape_clean k) as (_ & Hk2 & Hk3).
  destruct (QueryEscape_clean x) as (_ & Hx2 & _).
  rewrite ContainsByte_app, Hk2. simpl Strings.ContainsByte. rewrite Hx2. simpl.
  rewrite app_sep_not_empty, Cut_app_sep by done.
  by rewrite !QueryUnescape_QueryEscape.
Qed.

Lemma at_key_insert (m : Values) k l : Values.at_key (<[k := l]> m) k = l.
Proof. unfold Values.at_key. by rewrite lookup_insert_eq. Qed.

Lemma Add_many (m : Values) (k : string) (xs : list string) :
  foldl (λ m x, Values.Add m k x) m xs
  = match xs with
    | [] => m
    | _ => <[k := Values.at_key m k ++ xs]> m
    end.
Proof.
  revert m. induction xs as [|x xs IH]; intros m; [reflexivity |].
  simpl. rewrite IH.
  destruct xs as [|y xs]; [reflexivity |].
  unfold Values.Add.
  by rewrite at_key_insert, insert_insert_eq, <- app_assoc.
Qed.

Lemma parse_encode_key (v m : Values) (k : string) :
  foldl parseQuery_step m (Values.encode_key v k)
  = foldl (λ m x, Values.Add m k x) m (Values.at_key v k).
Proof.
  unfold Values.encode_key. generalize (Values.at_key v k) as xs.
  intros xs. revert m. induction xs as [|x xs IH]; intros m; [reflexivity |].
  simpl. by rewrite parseQuery_step_pair, IH.
Qed.

Lemma parse_encode_keys (v : Values) (ks : list string) (m : Values) (k : string) :
  NoDup ks →
  (∀ k', k' ∈ ks → m !! k' = None) →
  foldl parseQuery_step m (ks ≫= Values.encode_key v) !! k
  = if decide (k ∈ ks ∧ Values.at_key v k ≠ []) then Some (Values.at_key v k)
    else m !! k.
Proof.
  intros Hnd. revert m. induction Hnd as [|k0 ks Hk0 Hnd IH]; intros m Hm.
  - destruct (decide _) as [[H _]|_]; [by apply elem_of_nil in H | reflexivity].
  - rewrite bind_cons, foldl_app, parse_encode_key, Add_many.
    assert (Hm0 : m !! k0 = None) by (apply Hm; left).
    destruct (Values.at_key v k0) as [|x xs] eqn:Hv.
    + rewrite IH by (intros; apply Hm; by right).
      destruct (decide (k ∈ ks ∧ _)) as [[Hin Hne]|Hno];
        destruct (decide (k ∈ k0 :: ks ∧ _)) as [[Hin' Hne']|Hno'];
        try reflexivity.
      * destruct Hno'. split; [by right | done].
      * apply elem_of_cons in Hin' as [->|Hin']; [congruence | by destruct Hno].
    + replace (Values.at_key m k0) with (@nil string)
        by (unfold Values.at_key; by rewrite Hm0).
      rewrite app_nil_l, IH.
      * destruct (decide (k ∈ ks ∧ _)) as [[Hin Hne]|Hno];
          destruct (decide (k ∈ k0 :: ks ∧ _)) as [[Hin' Hne']|Hno'];
          try reflexivity.
        -- destruct Hno'. split; [by right | done].
        -- apply elem_of_cons in Hin' as [->|Hin']; [| by destruct Hno].
           by rewrite lookup_insert_eq, Hv.
        -- rewrite lookup_insert_ne; [reflexivity |].
           intros ->. destruct Hno'. split; [by left | by rewrite Hv].
      * intros k' Hk'. rewrite lookup_insert_ne by (by intros ->).
        apply Hm. by right.
Qed.

Lemma ParseQuery_Join (l : list string) :
  Forall (λ x, Strings.ContainsByte "&" x = false) l →
  ParseQuery (Strings.Join "&" l) = foldl parseQuery_step ∅ l.
Proof.
  intros Hl. unfold ParseQuery. destruct l as [|x l]; [reflexivity |].
  by rewrite Split_Join.
Qed.

Lemma encoded_pairs_clean (v : Values) (ks : list string) :
  Forall (λ x, Strings.ContainsByte "&" x = false) (ks ≫= Values.encode_key v).
Proof.
  apply Forall_forall. intros piece (k & Hpiece & _)%list_elem_of_bind.
  unfold Values.encode_key in Hpiece.
  apply list_elem_of_fmap in Hpiece as (x & -> & _).
  rewrite ContainsByte_app. simpl.
  destruct (QueryEscape_clean k) as (-> & _ & _).
  by destruct (QueryEscape_clean x) as (-> & _ & _).
Qed.

Lemma sorted_keys_spec (v : Values) :
  NoDup (Values.sorted_keys v) ∧ ∀ k, k ∈ Values.sorted_keys v ↔ is_Some (v !! k).
Proof.
  unfold Values.sorted_keys. split.
  - rewrite merge_sort_Permutation. apply NoDup_elements.
  - intros k. rewrite merge_sort_Permutation, elem_of_elements. apply elem_of_dom.
Qed.

(** What [ParseQuery] reads back from [v.Encode()]: every key with its
    values, except the keys that hold no value. *)
Lemma ParseQuery_Encode_lookup (v : Values) (k : string) :
  ParseQuery (Values.Encode v) !! k
  = match v !! k with
    | Some (x :: xs) => Some (x :: xs)
    | _ => None
    end.
Proof.
  unfold Values.Encode. rewrite ParseQuery_Join by apply encoded_pairs_clean.
  destruct (sorted_keys_spec v) as [Hnd Hin].
  rewrite parse_encode_keys by (done || intros; apply lookup_empty).
  rewrite lookup_empty. unfold Values.at_key.
  destruct (v !! k) as [[|x xs]|] eqn:Hv; simpl.
  - case_decide as H; [by destruct H | reflexivity].
  - case_decide as H; [reflexivity |]. destruct H. split; [| done].
    apply Hin. by rewrite Hv.
  - case_decide as H; [| reflexivity]. by destruct H.
Qed.

Lemma ParseQuery_Encode (v : Values) : proper v → ParseQuery (Values.Encode v) = v.
Proof.
  intros Hv. apply map_eq. intros k. rewrite ParseQuery_Encode_lookup.
  specialize (Hv k). by destruct (v !! k) as [[|x xs]|].
Qed.

Lemma proper_empty : proper ∅.
Proof. intros k. by rewrite lookup_empty. Qed.

Lemma proper_Set (v : Values) k x : proper v → proper (Values.Set_ v k x).
Proof.
  intros Hv k'. unfold Values.Set_.
  destruct (decide (k = k')) as [->|Hne];
    [by rewrite lookup_insert_eq | by rewrite lookup_insert_ne].
Qed.

Lemma proper_Add (v : Values) k x : proper v → proper (Values.Add v k x).
Proof.
  intros Hv k'. unfold Values.Add.
  destruct (decide (k = k')) as [->|Hne]; [| by rewrite lookup_insert_ne].
  rewrite lookup_insert_eq. by destruct (Values.at_key v k').
Qed.

Lemma proper_parseQuery_step (v : Values) piece :
  proper v → proper (parseQuery_step v piece).
Proof.
  intros Hv. unfold parseQuery_step.
  repeat case_match; auto using proper_Add.
Qed.

Lemma proper_ParseQuery (q : string) : proper (ParseQuery q).
Proof.
  unfold ParseQuery. generalize (Strings.Split "&" q) as l.
  assert (H : ∀ l v, proper v → proper (foldl parseQuery_step v l)).
  { induction l as [|x l IH]; intros v Hv; [done |].
    simpl. by apply IH, proper_parseQuery_step. }
  intros l. apply H, proper_empty.
Qed.

Lemma proper_Query (u : URL) : proper (Query u).
Proof. apply proper_ParseQuery. Qed.

(** [u.Query()] of a URL whose [RawQuery] was set to [v.Encode()] *)
Lemma Query_with_Encode (u : URL) (v : Values) :
  proper v → Query (with_RawQuery u (Values.Encode v)) = v.
Proof. intros Hv. unfold Query. simpl. by apply ParseQuery_Encode. Qed.

(** ** Joining a segment to a plain path *)

Lemma all_bytes_app P a b : all_bytes P (a +:+ b) = all_bytes P a && all_bytes P b.
Proof.
  induction a as [|c a IH]; [reflexivity |].
  rewrite append_cons. simpl. by rewrite IH, andb_assoc.
Qed.

Lemma all_bytes_impl (P Q : ascii → bool) s :
  (∀ c, P c = true → Q c = true) → all_bytes P s = true → all_bytes Q s = true.
Proof.
  intros HPQ. induction s as [|c s IH]; [done |]. simpl.
  intros [Hc Hs]%andb_true_iff. by rewrite (HPQ c Hc), IH.
Qed.

Lemma plain_segment_safe e : plain_segment e → all_bytes path_safe e = true.
Proof.
  intros (_ & _ & _ & H). revert H. apply all_bytes_impl.
  by intros c [? _]%andb_true_iff.
Qed.

Lemma plain_segment_no_slash e : plain_segment e → Strings.ContainsByte "/" e = false.
Proof.
  intros (_ & _ & _ & H). induction e as [|c e IH]; [done |].
  simpl in *. apply andb_true_iff in H as [[_ Hc]%andb_true_iff He].
  apply negb_true_iff in Hc. by rewrite Hc, IH.
Qed.

Lemma Join_safe (segs : list string) :
  Forall plain_segment segs → all_bytes path_safe (Strings.Join "/" segs) = true.
Proof.
  induction 1 as [|e segs He Hsegs IH]; [done |].
  destruct segs as [|e' segs]; [by apply plain_segment_safe |].
  change (Strings.Join "/" (e :: e' :: segs))
    with (e +:+ String "/" (Strings.Join "/" (e' :: segs))).
  rewrite all_bytes_app, plain_segment_safe by done. simpl. exact IH.
Qed.

Lemma rooted_path_safe segs :
  Forall plain_segment segs → all_bytes path_safe (rooted_path segs) = true.
Proof. intros H. unfold rooted_path. simpl. by apply Join_safe. Qed.

Lemma escape_safe s : all_bytes path_safe s = true → escape encodePath s = s.
Proof.
  induction s as [|c s IH]; [done |]. simpl.
  intros [Hc Hs]%andb_true_iff. apply negb_true_iff in Hc. by rewrite Hc, IH.
Qed.

Lemma path_safe_not_percent c : path_safe c = true → Byte.eqb c "%" = false.
Proof. each_byte c; vm_compute; congruence. Qed.

Lemma unescape_safe s : all_bytes path_safe s = true → unescape encodePath s = Some s.
Proof.
  induction s as [|c s IH]; [done |].
  intros [Hc Hs]%andb_true_iff.
  change (unescape encodePath (String c s))
    with (if Byte.eqb c "%" then
            match s with
            | String a (String b rest') =>
                if Byte.ishex a && Byte.ishex b
                then String (Byte.of_hex a b) <$> unescape encodePath rest'
                else None
            | _ => None
            end
          else if Byte.eqb c "+" && encoding_eqb encodePath encodeQueryComponent
          then String " " <$> unescape encodePath s
          else String c <$> unescape encodePath s).
  rewrite (path_safe_not_percent c Hc), andb_false_r, IH by done. reflexivity.
Qed.

Lemma Join_snoc (segs : list string) (e : string) :
  segs ≠ [] →
  Strings.Join "/" (segs ++ [e]) = Strings.Join "/" segs +:+ String "/" e.
Proof.
  induction segs as [|x segs IH]; [done |]. intros _.
  destruct segs as [|y segs]; [reflexivity |].
  change (Strings.Join "/" ((x :: y :: segs) ++ [e]))
    with (x +:+ String "/" (Strings.Join "/" ((y :: segs) ++ [e]))).
  rewrite IH by done.
  change (Strings.Join "/" (x :: y :: segs))
    with (x +:+ String "/" (Strings.Join "/" (y :: segs))).
  by rewrite append_assoc, append_cons.
Qed.

Lemma clean_plain (segs : list string) (out : list string) :
  Forall plain_segment segs →
  foldl (path.clean_step true) (0, out) segs = (0, rev segs ++ out).
Proof.
  intros H. revert out. induction H as [|e segs He Hsegs IH]; intros out; [done |].
  simpl. destruct He as (He1 & He2 & He3 & _).
  apply String.eqb_neq in He1, He2, He3. rewrite He1, He2, He3.
  rewrite IH. by rewrite <- app_assoc.
Qed.

(** [path.Clean] of a plain rooted path with one more plain segment *)
Lemma Clean_rooted_snoc (segs : list string) (e : string) :
  Forall plain_segment segs → plain_segment e →
  path.Clean (rooted_path segs +:+ String "/" e) = rooted_path (segs ++ [e]).
Proof.
  intros Hsegs He. unfold path.Clean, rooted_path.
  rewrite append_cons. simpl String.eqb. simpl Strings.HasPrefixByte. cbv iota.
  assert (Hsplit : ∃ pad, Forall (λ x, x = "") pad
            ∧ Strings.Split "/" (String "/" (Strings.Join "/" segs +:+ String "/" e))
              = pad ++ segs ++ [e]).
  { rewrite Split_cons_sep. destruct segs as [|x segs].
    - exists [""; ""]. split; [by repeat constructor |].
      change (Strings.Join "/" [] +:+ String "/" e) with (String "/" e).
      rewrite Split_cons_sep.
      by rewrite Split_no_sep by by apply plain_segment_no_slash.
    - exists [""]. split; [by repeat constructor |].
      rewrite <- Join_snoc by done.
      change ([""] ++ (x :: segs) ++ [e]) with ("" :: ((x :: segs) ++ [e])).
      f_equal. apply Split_Join; [done |].
      apply Forall_app. split.
      + eapply Forall_impl; [exact Hsegs |]. apply plain_segment_no_slash.
      + by apply Forall_singleton, plain_segment_no_slash. }
  destruct Hsplit as (pad & Hpad & ->).
  rewrite foldl_app.
  assert (Hskip : foldl (path.clean_step true) (0, []) pad = (0, [])).
  { induction Hpad as [|x pad -> _ IH]; [done |]. simpl. exact IH. }
  rewrite Hskip, clean_plain
    by (apply Forall_app; split; [done | by apply Forall_singleton]).
  by rewrite app_nil_r, rev_involutive.
Qed.

Lemma HasSuffixByte_absent c s :
  Strings.ContainsByte c s = false → Strings.HasSuffixByte c s = false.
Proof.
  induction s as [|d s IH]; [done |]. simpl.
  intros [Hd Hs]%orb_false_iff. destruct s; [done |]. by apply IH.
Qed.

(** [u.JoinPath(name)] for a URL with a plain path and a plain [name]: the
    path with the segment appended, and nothing else changed. *)
Lemma JoinPath_plain (u : URL) (segs : list string) (name : string) :
  RawPath u = "" → Path u = rooted_path segs →
  Forall plain_segment segs → plain_segment name →
  JoinPath u [name] = with_Path u (rooted_path (segs ++ [name])) "".
Proof.
  intros Hraw Hpath Hsegs Hname.
  assert (Hesc : EscapedPath u = rooted_path segs).
  { unfold EscapedPath. rewrite Hraw, Hpath. simpl.
    by rewrite escape_safe by by apply Join_safe. }
  assert (Hsafe : all_bytes path_safe (rooted_path (segs ++ [name])) = true).
  { apply rooted_path_safe, Forall_app. split; [done | by apply Forall_singleton]. }
  unfold JoinPath. rewrite Hesc. simpl Strings.HasPrefixByte. cbv iota zeta.
  assert (Hjoin : path.Join [rooted_path segs; name] = rooted_path (segs ++ [name])).
  { unfold path.Join. simpl. by apply Clean_rooted_snoc. }
  rewrite Hjoin. simpl List.last.
  rewrite (HasSuffixByte_absent "/" name) by by apply plain_segment_no_slash.
  simpl andb. cbv iota.
  unfold setPath. rewrite unescape_safe, escape_safe by done.
  by rewrite String.eqb_refl.
Qed.

(** ** The endpoint URLs *)

Lemma JoinPath_same_but_path (u : URL) (elem : list string) :
  same_but_path u (JoinPath u elem).
Proof.
  unfold JoinPath, setPath.
  destruct (unescape encodePath _); [| by repeat split].
  destruct (String.eqb _ _); by repeat split.
Qed.

Lemma JoinPath_Query (u : URL) (elem : list string) : Query (JoinPath u elem) = Query u.
Proof.
  unfold Query. by destruct (JoinPath_same_but_path u elem) as (_&_&_&_&_&_&->&_).
Qed.

Lemma endpoint_of_intro (d : DiscoveryClient) (name : string) :
  plain_segment name →
  endpoint_of d name
    (let endpoint := JoinPath (ApiUrl d) [name] in
     if String.eqb (ApiKey d) "" then endpoint
     else with_RawQuery endpoint
            (Values.Encode (Values.Set_ (Query endpoint) "apikey" (ApiKey d)))).
Proof.
  intros Hname. unfold endpoint_of, param. cbv zeta.
  split; [by destruct (String.eqb _ _) |].
  split.
  { intros segs Hraw Hpath Hsegs.
    rewrite (JoinPath_plain _ segs) by done. by destruct (String.eqb _ _). }
  destruct (String.eqb_spec (ApiKey d) "") as [Hkey|Hkey].
  - split; [done |]. intros _.
    rewrite JoinPath_Query.
    by destruct (JoinPath_same_but_path (ApiUrl d) [name]) as (_&_&_&_&_&_&->&_).
  - split; [| done]. intros _.
    rewrite Query_with_Encode by apply proper_Set, proper_Query.
    rewrite JoinPath_Query. unfold Values.Set_. by rewrite lookup_insert_eq.
Qed.

Lemma plain_events : plain_segment "events".
Proof. repeat split; (discriminate || reflexivity). Qed.

Lemma plain_venues : plain_segment "venues".
Proof. repeat split; (discriminate || reflexivity). Qed.

(** C7, as the code has it. [EventsUrl] and [VenuesUrl] return the base
    URL with "events" (resp. "venues") joined to its path: for a base path
    [/e1/.../en] of plain segments the path [/e1/.../en/events].  With a key
    configured, the query of the result is the base URL's with [apikey] set to
    the key.  With an empty key nothing is attached: the query string is the
    base URL's own, so the result has an [apikey] parameter exactly when the
    base URL has one. *)
Theorem endpoint_urls (d : DiscoveryClient) :
  endpoint_of d "events" (EventsUrl d) ∧ endpoint_of d "venues" (VenuesUrl d).
Proof.
  split; [apply (endpoint_of_intro d "events"), plain_events
         | apply (endpoint_of_intro d "venues"), plain_venues].
Qed.

(** for the public endpoint and a key *)
Lemma endpoint_urls_witness :
  let d := mkClient DiscoveryApiUrl "k3y" in
  (Path (EventsUrl d) = "/discovery/v2/events"
   ∧ param (EventsUrl d) "apikey" = Some ["k3y"])
  ∧ (Path (VenuesUrl d) = "/discovery/v2/venues"
     ∧ param (VenuesUrl d) "apikey" = Some ["k3y"]).
Proof.
  intros d.
  destruct (endpoint_urls d) as [(_ & Hpath & Hkey & _) (_ & Hpath' & Hkey' & _)].
  assert (Hsegs : Forall plain_segment ["discovery"; "v2"]).
  { repeat constructor; (discriminate || reflexivity). }
  split.
  - split; [apply (Hpath ["discovery"; "v2"]); (reflexivity || exact Hsegs)
           | apply Hkey; discriminate].
  - split; [apply (Hpath' ["discovery"; "v2"]); (reflexivity || exact Hsegs)
           | apply Hkey'; discriminate].
Defined.

(** C7 as stated fails for a base URL that has an [apikey] parameter of its
    own: with an empty key, the URLs returned still carry it. *)
Lemma endpoint_keeps_key_of_base :
  let base := with_RawQuery DiscoveryApiUrl "apikey=old" in
  let d := mkClient base "" in
  ApiKey d = ""
  ∧ param (EventsUrl d) "apikey" = Some ["old"]
  ∧ param (VenuesUrl d) "apikey" = Some ["old"]
  ∧ URL_String (EventsUrl d)
    = "https://app.ticketmaster.com/discovery/v2/events?apikey=old".
Proof. vm_compute. repeat split. Qed.

(** the usual configuration *)
Example endpoint_urls_example :
  URL_String (EventsUrl (mkClient DiscoveryApiUrl "k3y"))
  = "https://app.ticketmaster.com/discovery/v2/events?apikey=k3y"
  ∧ URL_String (VenuesUrl (mkClient DiscoveryApiUrl "k3y"))
    = "https://app.ticketmaster.com/discovery/v2/venues?apikey=k3y"
  ∧ URL_String (EventsUrl (mkClient DiscoveryApiUrl ""))
    = "https://app.ticketmaster.com/discovery/v2/events".
Proof. vm_compute. repeat split. Qed.

(** ** The query [UpdateURL] builds *)

(** [UpdateURL] never returns an error. *)
Lemma UpdateURL_eq q u apikey :
  UpdateURL q u apikey
  = (Some (with_RawQuery u (Values.Encode (updated_query q u apikey))), None).
Proof. reflexivity. Qed.

Lemma coerce_nonempty (s : string) : s ≠ "" → utf8.coerce s ≠ "".
Proof.
  destruct s as [|c0 r0]; [done |]. intros _. simpl.
  repeat case_match; discriminate.
Qed.

Lemma QP_names_NoDup : NoDup QP.names.
Proof. apply (bool_decide_unpack _). vm_compute. exact I. Qed.

Lemma QP_fields_names (q : QueryParams) : (QP.fields q).*1 = QP.names.
Proof. reflexivity. Qed.

Lemma NoDup_reverse_fst {A B} (l : list (A * B)) : NoDup (l.*1) → NoDup ((reverse l).*1).
Proof.
  intros H. rewrite fmap_reverse. by eapply NoDup_Permutation_proper;
    [apply reverse_Permutation |].
Qed.

Lemma Marshal_names_NoDup (q : QueryParams) : NoDup ((json.Marshal q).1.*1).
Proof.
  unfold json.Marshal. simpl. rewrite <- list_fmap_compose.
  apply (sublist_NoDup _ ((QP.fields q).*1)).
  - rewrite QP_fields_names. apply QP_names_NoDup.
  - apply fmap_sublist, sublist_filter.
Qed.

(** the entries of the map that [UpdateURL] ranges over: the non-empty
    fields, by wire name, each as the JSON round trip returns it *)
Lemma Unmarshal_Marshal_lookup (q : QueryParams) (k y : string) :
  (json.Unmarshal (json.Marshal q).1).1 !! k = Some y
  ↔ ∃ v, (k, v) ∈ QP.fields q ∧ v ≠ "" ∧ y = utf8.coerce v.
Proof.
  unfold json.Unmarshal. simpl fst.
  rewrite <- elem_of_list_to_map by apply NoDup_reverse_fst, Marshal_names_NoDup.
  rewrite elem_of_reverse. unfold json.Marshal. simpl fst.
  rewrite list_elem_of_fmap. split.
  - intros ([k' v] & Heq & Hin). simpl in Heq. simplify_eq.
    apply list_elem_of_filter in Hin as [Hne Hin]. by exists v.
  - intros (v & Hin & Hne & ->). exists (k, v). split; [done |].
    by apply list_elem_of_filter.
Qed.

Lemma field_unique (q : QueryParams) (k v v' : string) :
  (k, v) ∈ QP.fields q → (k, v') ∈ QP.fields q → v = v'.
Proof.
  intros H1 H2.
  assert (Hnd : NoDup ((QP.fields q).*1))
    by (rewrite QP_fields_names; apply QP_names_NoDup).
  apply (elem_of_list_to_map (M := gmap string)) in H1, H2; [| done..].
  congruence.
Qed.

(** The rounds of the loop, taken in the order of any list [l] of entries
    with distinct names, leave under each name what the base had there,
    followed by the value of the entry of that name, if it is not empty. *)
Lemma add_fields_lookup (l : list (string * string)) (base : Values) (k : string) :
  NoDup (l.*1) →
  foldr (uncurry add_field) base l !! k
  = match (list_to_map l : gmap string string) !! k with
    | Some val =>
        if String.eqb val "" then base !! k
        else Some (Values.at_key base k ++ [val])
    | None => base !! k
    end.
Proof.
  induction l as [|[i x] l IH]; intros Hnd.
  - simpl. by rewrite lookup_empty.
  - rewrite fmap_cons in Hnd. simpl in Hnd.
    apply NoDup_cons in Hnd as [Hi Hnd]. specialize (IH Hnd).
    simpl. unfold add_field at 1.
    destruct (decide (i = k)) as [->|Hne].
    + rewrite lookup_insert_eq.
      apply (not_elem_of_list_to_map_1 (M := gmap string)) in Hi. rewrite Hi in IH.
      destruct (String.eqb x ""); simpl; [done |].
      unfold Values.Add. rewrite lookup_insert_eq. unfold Values.at_key.
      by rewrite IH.
    + rewrite lookup_insert_ne by done.
      destruct (String.eqb x ""); simpl; [done |].
      unfold Values.Add. by rewrite lookup_insert_ne.
Qed.

(** The loop [for field, val := range qp] does the same in every order. *)
Lemma UpdateURL_any_order (qp : gmap string string) (base : Values)
    (l : list (string * string)) :
  l ≡ₚ map_to_list qp →
  foldr (uncurry add_field) base l = map_fold add_field base qp.
Proof.
  intros Hl. rewrite map_fold_foldr. apply map_eq. intros k.
  assert (Hnd : NoDup (l.*1)) by (rewrite Hl; apply NoDup_fst_map_to_list).
  rewrite !add_fields_lookup by (done || apply NoDup_fst_map_to_list).
  by rewrite (list_to_map_proper l (map_to_list qp)).
Qed.

Lemma updated_query_lookup (q : QueryParams) (u : URL) (apikey k : string) :
  updated_query q u apikey !! k
  = match (json.Unmarshal (json.Marshal q).1).1 !! k with
    | Some val => Some (Values.at_key (Values.Set_ (Query u) "apikey" apikey) k ++ [val])
    | None => Values.Set_ (Query u) "apikey" apikey !! k
    end.
Proof.
  unfold updated_query.
  rewrite map_fold_foldr, add_fields_lookup by apply NoDup_fst_map_to_list.
  rewrite list_to_map_to_list.
  destruct (_ !! k) as [val|] eqn:Hk; [| done].
  apply Unmarshal_Marshal_lookup in Hk as (v & _ & Hv & ->).
  apply coerce_nonempty, String.eqb_neq in Hv. by rewrite Hv.
Qed.

Lemma proper_updated_query q u apikey : proper (updated_query q u apikey).
Proof.
  intros k. rewrite updated_query_lookup.
  destruct (_ !! k) as [val|].
  - by destruct (Values.at_key _ k).
  - apply proper_Set, proper_Query.
Qed.

Lemma apikey_is_no_field (q : QueryParams) (v : string) : ("apikey", v) ∉ QP.fields q.
Proof.
  intros Hin. apply (list_elem_of_fmap_2 fst) in Hin. rewrite QP_fields_names in Hin.
  revert Hin. apply (bool_decide_unpack _). vm_compute. exact I.
Qed.

(** C4, as the code has it. [UpdateURL] never fails, and changes nothing
    of the URL but its query string.  In the query it builds, [apikey] holds
    the one value given as the key (the empty value when no key is
    configured); every field that is not empty is added under its wire name,
    after the values the URL already had under that name, with each byte that
    is not part of well-formed UTF-8 replaced by U+FFFD; an empty field adds
    nothing; every other parameter of the URL is kept.  So for a URL without
    a query and fields in UTF-8, the query holds exactly [apikey] and the
    non-empty fields, each with its given value. *)
Theorem UpdateURL_query (q : QueryParams) (u : URL) (apikey : string) :
  ∃ u' : URL,
    UpdateURL q u apikey = (Some u', None)
    ∧ with_RawQuery u' "" = with_RawQuery u ""
    ∧ param u' "apikey" = Some [apikey]
    ∧ (∀ name val, (name, val) ∈ QP.fields q →
         param u' name
         = if String.eqb val "" then param u name
           else Some (Values.at_key (Query u) name ++ [utf8.coerce val]))
    ∧ (∀ k, k ≠ "apikey" → k ∉ QP.names → param u' k = param u k)
    ∧ (Query u = ∅ →
         ∀ name val, (name, val) ∈ QP.fields q → utf8.ValidString val →
           param u' name = if String.eqb val "" then None else Some [val]).
Proof.
  exists (with_RawQuery u (Values.Encode (updated_query q u apikey))).
  split; [apply UpdateURL_eq |]. split; [reflexivity |].
  unfold param. rewrite Query_with_Encode by apply proper_updated_query.
  assert (Hfield : ∀ name val, (name, val) ∈ QP.fields q →
            updated_query q u apikey !! name
            = if String.eqb val "" then Query u !! name
              else Some (Values.at_key (Query u) name ++ [utf8.coerce val])).
  { intros name val Hin. rewrite updated_query_lookup.
    assert (Hname : name ≠ "apikey")
      by (intros ->; by apply apikey_is_no_field in Hin).
    unfold Values.at_key, Values.Set_. rewrite lookup_insert_ne by done.
    destruct (String.eqb_spec val "") as [->|Hval].
    - destruct (_ !! name) as [y|] eqn:Hy; [| done].
      apply Unmarshal_Marshal_lookup in Hy as (v & Hv & Hne & _).
      by rewrite (field_unique q name "" v Hin Hv) in Hne.
    - assert (Hy : (json.Unmarshal (json.Marshal q).1).1 !! name
                   = Some (utf8.coerce val))
        by (apply Unmarshal_Marshal_lookup; by exists val).
      by rewrite Hy. }
  split; [| split; [exact Hfield | split]].
  - rewrite updated_query_lookup.
    destruct (_ !! "apikey") as [y|] eqn:Hy.
    + apply Unmarshal_Marshal_lookup in Hy as (v & Hv & _).
      by apply apikey_is_no_field in Hv.
    + unfold Values.Set_. by rewrite lookup_insert_eq.
  - intros k Hk Hnames. rewrite updated_query_lookup.
    destruct (_ !! k) as [y|] eqn:Hy.
    + apply Unmarshal_Marshal_lookup in Hy as (v & Hv & _).
      apply (list_elem_of_fmap_2 fst) in Hv. by rewrite QP_fields_names in Hv.
    + unfold Values.Set_. by rewrite lookup_insert_ne.
  - intros Hempty name val Hin Hvalid. rewrite (Hfield name val Hin).
    unfold Values.at_key. rewrite Hempty, lookup_empty. simpl.
    by rewrite Hvalid.
Qed.

Lemma UpdateURL_query_witness :
  let q := QP.mk "" "date,asc" "" "20" "" "rock & roll" "" "" "" "KovZpZA7AAEA"
                 "" "" "" "" "" "" "" "" "" "" "" "" "" "" "" in
  let u := EventsUrl (mkClient DiscoveryApiUrl "k3y") in
  ∃ u' : URL,
    UpdateURL q u "k3y" = (Some u', None)
    ∧ param u' "apikey" = Some ["k3y"]
    ∧ param u' "keyword" = Some ["rock & roll"]
    ∧ param u' "venueId" = Some ["KovZpZA7AAEA"]
    ∧ param u' "page" = None.
Proof.
  intros q u.
  destruct (UpdateURL_query q u "k3y") as (u' & Hrun & _ & Hkey & Hfield & _).
  exists u'. split; [exact Hrun |]. split; [exact Hkey |].
  split; [| split].
  - rewrite (Hfield "keyword" "rock & roll") by by_computation.
    vm_compute. reflexivity.
  - rewrite (Hfield "venueId" "KovZpZA7AAEA") by by_computation.
    vm_compute. reflexivity.
  - rewrite (Hfield "page" "") by by_computation.
    vm_compute. reflexivity.
Defined.

(** the string of the URL built in that example *)
Example UpdateURL_example :
  let q := QP.mk "" "date,asc" "" "20" "" "rock & roll" "" "" "" "KovZpZA7AAEA"
                 "" "" "" "" "" "" "" "" "" "" "" "" "" "" "" in
  URL_String <$> (UpdateURL q (EventsUrl (mkClient DiscoveryApiUrl "k3y")) "k3y").1
  = Some ("https://app.ticketmaster.com/discovery/v2/events"
          +:+ "?apikey=k3y&keyword=rock+%26+roll&size=20&sort=date%2Casc"
          +:+ "&venueId=KovZpZA7AAEA").
Proof. vm_compute. reflexivity. Qed.

(** C4 as stated fails in three ways.  With no key configured the query
    still has an [apikey] parameter, with the empty value.  A field that is
    not UTF-8 does not arrive with its given value.  And a parameter the URL
    had is still there, though it is no field of the [QueryParams]. *)
Lemma UpdateURL_not_as_stated :
  let keyless := EventsUrl (mkClient DiscoveryApiUrl "") in
  let latin1 := String (ascii_of_N 0xE9) "" in
  let q := QP.mk "" "" "" "" "" latin1 "" "" "" "" "" "" "" "" "" "" "" "" ""
                 "" "" "" "" "" "" in
  (∃ u', UpdateURL QP.empty keyless "" = (Some u', None)
         ∧ param u' "apikey" = Some [""]
         ∧ URL_String u' = "https://app.ticketmaster.com/discovery/v2/events?apikey=")
  ∧ (∃ u', UpdateURL q keyless "" = (Some u', None)
           ∧ param u' "keyword" = Some [utf8.RuneError]
           ∧ param u' "keyword" ≠ Some [latin1])
  ∧ (∃ u', UpdateURL QP.empty (with_RawQuery keyless "source=mail") "k3y"
           = (Some u', None)
           ∧ param u' "source" = Some ["mail"]
           ∧ "source" ∉ QP.names).
Proof.
  intros keyless latin1 q.
  split; [| split]; eexists; (split; [apply UpdateURL_eq |]).
  - split; vm_compute; reflexivity.
  - split; [vm_compute; reflexivity |]. vm_compute. discriminate.
  - split; [vm_compute; reflexivity |]. by_computation.
Qed.

(** ** Redaction *)




(** ** Running the operations *)

Lemma bind_Done {A B} (m : M A) (k : A → M B) s a s' :
  m s = (Done a, s') → (m ≫= k) s = k a s'.
Proof. intros H. unfold mbind, M_bind, bind. by rewrite H. Qed.

Lemma bind_Panic {A B} (m : M A) (k : A → M B) s msg s' :
  m s = (Panic msg, s') → (m ≫= k) s = (Panic msg, s').
Proof. intros H. unfold mbind, M_bind, bind. by rewrite H. Qed.

Lemma load_page_Some p s pv :
  pages s !! p = Some pv → load_page p s = (Done pv, s).
Proof. intros H. unfold load_page. by rewrite H. Qed.

Lemma load_client_Some d s c :
  clients s !! d = Some c → load_client d s = (Done c, s).
Proof. intros H. unfold load_client. by rewrite H. Qed.

Lemma NextPage_run w p client s :
  NextPage w p client s = turn_page w p client Next s.
Proof.
  unfold NextPage, turn_page, page_url. run_monad.
  destruct (pages s !! p) as [pv|] eqn:Hp; [simpl | reflexivity].
  case_match; [by rewrite Hp |].
  destruct (clients s !! client) as [c|] eqn:Hc; [simpl | reflexivity].
  rewrite Hp; simpl.
  case_match; [reflexivity |].
  rewrite Hp; simpl.
  destruct (url_Parse w (ApiUrl c) (Href (Next (PR.Links pv)))) as [rel|];
    [simpl | reflexivity].
  rewrite Hc; simpl.
  run_request.
Qed.

Lemma PreviousPage_run w p client s :
  PreviousPage w p client s = turn_page w p client Prev s.
Proof.
  unfold PreviousPage, turn_page, page_url. run_monad.
  destruct (pages s !! p) as [pv|] eqn:Hp; [simpl | reflexivity].
  case_match; [by rewrite Hp |].
  destruct (clients s !! client) as [c|] eqn:Hc; [simpl | reflexivity].
  rewrite Hp; simpl.
  case_match; [reflexivity |].
  rewrite Hp; simpl.
  destruct (url_Parse w (ApiUrl c) (Href (Prev (PR.Links pv)))) as [rel|];
    [simpl | reflexivity].
  rewrite Hc; simpl.
  run_request.
Qed.

Lemma SearchEvents_run w d q s :
  SearchEvents w d q s =
  match clients s !! d with
  | None => (Panic nil_dereference, s)
  | Some c =>
      paged_request w
        (URL_String (with_RawQuery (EventsUrl c)
                       (Values.Encode (updated_query q (EventsUrl c) (ApiKey c))))) s
  end.
Proof.
  unfold SearchEvents. run_monad.
  destruct (clients s !! d) as [c|]; [cbv beta iota | reflexivity].
  rewrite UpdateURL_eq.
  run_request.
Qed.

Lemma GetEvent_run w d id s :
  GetEvent w d id s =
  match clients s !! d with
  | None => (Panic nil_dereference, s)
  | Some c =>
      let url := URL_String (JoinPath (EventsUrl c) [id]) in
      document_request w url (add_log ("Querying: " +:+ url) s)
  end.
Proof.
  unfold GetEvent. run_monad.
  destruct (clients s !! d) as [c|]; [simpl | reflexivity].
  run_request.
Qed.

(** ** The depth guard and the links *)

(** C2. A page whose [Page.Size * Page.Number] (the product the code
    computes, on Go's [int]) is at least 1000: [NextPage] and [PreviousPage]
    return nil and the depth error, whatever the links hold, and leave the
    state as it was: nothing was requested from the network. *)
Theorem depth_guard_trips (w : World) (s : State) (p client : loc) (pv : PagedResponse) :
  pages s !! p = Some pv →
  (1000 <= int_mul (Size (PR.Page pv)) (Number (PR.Page pv)))%Z →
  NextPage w p client s = (Done (None, Some (depth_error pv)), s)
  ∧ PreviousPage w p client s = (Done (None, Some (depth_error pv)), s).
Proof.
  intros Hp Hdepth.
  apply Z.leb_le in Hdepth.
  split.
  - unfold NextPage.
    rewrite (bind_Done _ _ _ _ _ (load_page_Some _ _ _ Hp)).
    rewrite Hdepth.
    by rewrite (bind_Done _ _ _ _ _ (load_page_Some _ _ _ Hp)).
  - unfold PreviousPage.
    rewrite (bind_Done _ _ _ _ _ (load_page_Some _ _ _ Hp)).
    rewrite Hdepth.
    by rewrite (bind_Done _ _ _ _ _ (load_page_Some _ _ _ Hp)).
Qed.

(** Where the product fits Go's [int], it is the product of the integers. *)
Lemma int_mul_exact (a b : Z) :
  (- 2 ^ 63 <= a * b < 2 ^ 63)%Z → int_mul a b = (a * b)%Z.
Proof.
  intros H. unfold int_mul, int_wrap. rewrite Z.mod_small by lia. lia.
Qed.

(** the example of the specification: size 20, page number 50 *)
Lemma depth_guard_trips_witness :
  let pv := Mock.page 20 50 "/discovery/v2/events?page=51&size=20" "" in
  let w := Mock.world (GetErr Mock.refused) in
  NextPage w 1%positive 1%positive (Mock.state pv)
    = (Done (None, Some (Errorf "Max page depth reached (1000)")), Mock.state pv)
  ∧ PreviousPage w 1%positive 1%positive (Mock.state pv)
    = (Done (None, Some (Errorf "Max page depth reached (1000)")), Mock.state pv).
Proof.
  intros pv w.
  apply (depth_guard_trips w (Mock.state pv) 1%positive 1%positive pv).
  - reflexivity.
  - vm_compute. discriminate.
Defined.

(** C3, as the code has it. Below the depth limit, a page whose link is
    empty: [NextPage] (for [Links.Next]) and [PreviousPage] (for
    [Links.Prev]) return [(nil, nil)] and leave the state as it was, so no
    request is made. *)
Theorem empty_link_no_page (w : World) (s : State) (p client : loc)
    (pv : PagedResponse) (cv : DiscoveryClient) :
  pages s !! p = Some pv →
  clients s !! client = Some cv →
  (int_mul (Size (PR.Page pv)) (Number (PR.Page pv)) < 1000)%Z →
  (Href (Next (PR.Links pv)) = "" →
     NextPage w p client s = (Done (None, None), s))
  ∧ (Href (Prev (PR.Links pv)) = "" →
     PreviousPage w p client s = (Done (None, None), s)).
Proof.
  intros Hp Hc Hdepth.
  apply Z.leb_gt in Hdepth.
  split; intros Hlink.
  - unfold NextPage.
    rewrite (bind_Done _ _ _ _ _ (load_page_Some _ _ _ Hp)), Hdepth.
    rewrite (bind_Done _ _ _ _ _ (load_client_Some _ _ _ Hc)).
    rewrite (bind_Done _ _ _ _ _ (load_page_Some _ _ _ Hp)).
    by rewrite Hlink.
  - unfold PreviousPage.
    rewrite (bind_Done _ _ _ _ _ (load_page_Some _ _ _ Hp)), Hdepth.
    rewrite (bind_Done _ _ _ _ _ (load_client_Some _ _ _ Hc)).
    rewrite (bind_Done _ _ _ _ _ (load_page_Some _ _ _ Hp)).
    by rewrite Hlink.
Qed.

Lemma empty_link_no_page_witness :
  let pv := Mock.page 20 3 "" "" in
  let w := Mock.world (GetErr Mock.refused) in
  NextPage w 1%positive 1%positive (Mock.state pv) = (Done (None, None), Mock.state pv)
  ∧ PreviousPage w 1%positive 1%positive (Mock.state pv) = (Done (None, None), Mock.state pv).
Proof.
  intros pv w.
  destruct (empty_link_no_page w (Mock.state pv) 1%positive 1%positive pv Mock.client)
    as [Hnext Hprev].
  - reflexivity.
  - reflexivity.
  - vm_compute. reflexivity.
  - split; [apply Hnext | apply Hprev]; reflexivity.
Defined.

(** C3 as stated fails at the depth limit: with size 20 and page number 50
    and both links empty, [NextPage] and [PreviousPage] return the depth
    error, not [(nil, nil)]. *)
Lemma empty_link_at_depth_limit :
  let pv := Mock.page 20 50 "" "" in
  let w := Mock.world (GetErr Mock.refused) in
  Href (Next (PR.Links pv)) = "" ∧ Href (Prev (PR.Links pv)) = ""
  ∧ (NextPage w 1%positive 1%positive (Mock.state pv)).1
      = Done (None, Some (Errorf "Max page depth reached (1000)"))
  ∧ (PreviousPage w 1%positive 1%positive (Mock.state pv)).1
      = Done (None, Some (Errorf "Max page depth reached (1000)"))
  ∧ (NextPage w 1%positive 1%positive (Mock.state pv)).1 ≠ Done (None, None)
  ∧ (PreviousPage w 1%positive 1%positive (Mock.state pv)).1 ≠ Done (None, None).
Proof.
  intros pv w.
  assert (Hn : (NextPage w 1%positive 1%positive (Mock.state pv)).1
               = Done (None, Some (Errorf "Max page depth reached (1000)")))
    by (vm_compute; reflexivity).
  assert (Hp : (PreviousPage w 1%positive 1%positive (Mock.state pv)).1
               = Done (None, Some (Errorf "Max page depth reached (1000)")))
    by (vm_compute; reflexivity).
  split; [reflexivity |].
  split; [reflexivity |].
  split; [exact Hn |].
  split; [exact Hp |].
  split.
  - rewrite Hn. discriminate.
  - rewrite Hp. discriminate.
Qed.

(** ** One request per call *)

Lemma app_singleton_neq {A} (l : list A) (x : A) : l ≠ l ++ [x].
Proof.
  intros H. apply (f_equal length) in H. rewrite length_app in H. simpl in H. lia.
Qed.

Lemma not_requested (s s' : State) (url : string) :
  requests s' = requests s → ¬ requested s s' url.
Proof. unfold requested. intros -> H. by apply app_singleton_neq in H. Qed.

Lemma paged_request_requested w url s url' :
  requested s (paged_request w url s).2 url' ↔ url' = url.
Proof.
  unfold requested, paged_request.
  assert (H : requests (paged_request w url s).2 = requests s ++ [url])
    by (unfold paged_request; repeat case_match; reflexivity).
  unfold paged_request in H. rewrite H. split; [| by intros ->].
  by intros [_ ?]%app_inj_tail.
Qed.

Lemma document_request_requested w url s url' :
  requested s (document_request w url s).2 url' ↔ url' = url.
Proof.
  unfold requested, document_request.
  assert (H : requests (document_request w url s).2 = requests s ++ [url])
    by (unfold document_request; repeat case_match; reflexivity).
  unfold document_request in H. rewrite H. split; [| by intros ->].
  by intros [_ ?]%app_inj_tail.
Qed.

(** A pagination call that made a request for [url] is that request. *)
Lemma turn_page_requested w p client link s url :
  requested s (turn_page w p client link s).2 url →
  turn_page w p client link s = paged_request w url s.
Proof.
  unfold turn_page.
  repeat case_match; simpl; intros Hreq;
    try (by apply not_requested in Hreq).
  by apply paged_request_requested in Hreq as ->.
Qed.

Lemma SearchEvents_requested w d q s url :
  requested s (SearchEvents w d q s).2 url →
  SearchEvents w d q s = paged_request w url s.
Proof.
  rewrite SearchEvents_run. destruct (clients s !! d) as [c|]; simpl; intros H.
  - by apply paged_request_requested in H as ->.
  - by apply not_requested in H.
Qed.

Lemma GetEvent_requested w d id s url :
  requested s (GetEvent w d id s).2 url →
  GetEvent w d id s = document_request w url (add_log ("Querying: " +:+ url) s).
Proof.
  rewrite GetEvent_run. destruct (clients s !! d) as [c|]; simpl; intros H.
  - by apply (document_request_requested w _ (add_log _ s)) in H as ->.
  - by apply not_requested in H.
Qed.

(** ** A request that fails *)

Lemma paged_request_failed w url s e :
  transport w url = GetErr e → (paged_request w url s).1 = Panic nil_dereference.
Proof. intros H. unfold paged_request. by rewrite H. Qed.

Lemma document_request_failed w url s e :
  transport w url = GetErr e → (document_request w url s).1 = Panic nil_dereference.
Proof. intros H. unfold document_request. by rewrite H. Qed.

(** C1, what the code does. Whenever one of the four operations makes its
    request and [http.Get] fails at the network level (no response, an
    error), the operation does not return the error: the deferred
    [resp.Body.Close()], written before the test of [err], evaluates
    [resp.Body] on the nil response, and the call panics with a nil
    dereference. *)
Theorem transport_failure_panics (w : World) (s : State) (d p client : loc)
    (id : string) (q : QueryParams) :
  (∀ url e, requested s (GetEvent w d id s).2 url → transport w url = GetErr e →
     (GetEvent w d id s).1 = Panic nil_dereference)
  ∧ (∀ url e, requested s (SearchEvents w d q s).2 url → transport w url = GetErr e →
       (SearchEvents w d q s).1 = Panic nil_dereference)
  ∧ (∀ url e, requested s (NextPage w p client s).2 url → transport w url = GetErr e →
       (NextPage w p client s).1 = Panic nil_dereference)
  ∧ (∀ url e, requested s (PreviousPage w p client s).2 url →
       transport w url = GetErr e →
       (PreviousPage w p client s).1 = Panic nil_dereference).
Proof.
  split; [| split; [| split]]; intros url e Hreq Hnet.
  - rewrite (GetEvent_requested _ _ _ _ _ Hreq). by eapply document_request_failed.
  - rewrite (SearchEvents_requested _ _ _ _ _ Hreq). by eapply paged_request_failed.
  - rewrite NextPage_run in *. rewrite (turn_page_requested _ _ _ _ _ _ Hreq).
    by eapply paged_request_failed.
  - rewrite PreviousPage_run in *. rewrite (turn_page_requested _ _ _ _ _ _ Hreq).
    by eapply paged_request_failed.
Qed.

(** with the network down, on a client for the public endpoint *)
Lemma transport_failure_panics_witness :
  let pv := Mock.page 20 3 "/discovery/v2/events?page=4&size=20"
                           "/discovery/v2/events?page=2&size=20" in
  let w := Mock.world (GetErr Mock.refused) in
  let s := Mock.state pv in
  (GetEvent w 1%positive "Z7r9jZ1AdFY4P" s).1 = Panic nil_dereference
  ∧ (SearchEvents w 1%positive QP.empty s).1 = Panic nil_dereference
  ∧ (NextPage w 1%positive 1%positive s).1 = Panic nil_dereference
  ∧ (PreviousPage w 1%positive 1%positive s).1 = Panic nil_dereference.
Proof.
  intros pv w s.
  destruct (transport_failure_panics w s 1%positive 1%positive 1%positive
              "Z7r9jZ1AdFY4P" QP.empty)
    as (Hget & Hsearch & Hnext & Hprev).
  split; [| split; [| split]].
  - apply (Hget "https://app.ticketmaster.com/discovery/v2/events/Z7r9jZ1AdFY4P?apikey=k3y"
             Mock.refused); vm_compute; reflexivity.
  - apply (Hsearch "https://app.ticketmaster.com/discovery/v2/events?apikey=k3y"
             Mock.refused); vm_compute; reflexivity.
  - apply (Hnext "https://app.ticketmaster.com/discovery/v2/events?apikey=k3y&page=4&size=20"
             Mock.refused); vm_compute; reflexivity.
  - apply (Hprev "https://app.ticketmaster.com/discovery/v2/events?apikey=k3y&page=2&size=20"
             Mock.refused); vm_compute; reflexivity.
Defined.

(** ** A status that is not 200 *)

Lemma status_error_mentions code body :
  Strings.Contains (Error (status_error code body)) (itoa code)
  ∧ Strings.Contains (Error (status_error code body)) body.
Proof.
  split.
  - exists "Status code: ", (": " +:+ body). reflexivity.
  - exists ("Status code: " +:+ itoa code +:+ ": "), "".
    cbn [Error status_error]. by rewrite append_nil_r, !append_assoc.
Qed.

Lemma paged_request_status w url s r :
  transport w url = GetOk r → reply_status r ≠ 200%Z →
  (paged_request w url s).1
  = Done (None, Some (status_error (reply_status r) (reply_body r))).
Proof.
  intros H Hstatus%Z.eqb_neq. unfold paged_request. by rewrite H, Hstatus.
Qed.

Lemma document_request_status w url s r :
  transport w url = GetOk r → reply_status r ≠ 200%Z →
  (document_request w url s).1
  = Done (None, Some (status_error (reply_status r) (reply_body r))).
Proof.
  intros H Hstatus%Z.eqb_neq. unfold document_request. by rewrite H, Hstatus.
Qed.

(** C6. Whenever one of the four operations makes its request and the
    response has a status other than 200, the operation returns a nil result
    together with an error; the message of the error holds the status code
    (in decimal) and the text of the response body. *)
Theorem non_200_is_an_error (w : World) (s : State) (d p client : loc)
    (id : string) (q : QueryParams) :
  (∀ code body,
     Strings.Contains (Error (status_error code body)) (itoa code)
     ∧ Strings.Contains (Error (status_error code body)) body)
  ∧ (∀ url r, requested s (GetEvent w d id s).2 url →
       transport w url = GetOk r → reply_status r ≠ 200%Z →
       (GetEvent w d id s).1
       = Done (None, Some (status_error (reply_status r) (reply_body r))))
  ∧ (∀ url r, requested s (SearchEvents w d q s).2 url →
       transport w url = GetOk r → reply_status r ≠ 200%Z →
       (SearchEvents w d q s).1
       = Done (None, Some (status_error (reply_status r) (reply_body r))))
  ∧ (∀ url r, requested s (NextPage w p client s).2 url →
       transport w url = GetOk r → reply_status r ≠ 200%Z →
       (NextPage w p client s).1
       = Done (None, Some (status_error (reply_status r) (reply_body r))))
  ∧ (∀ url r, requested s (PreviousPage w p client s).2 url →
       transport w url = GetOk r → reply_status r ≠ 200%Z →
       (PreviousPage w p client s).1
       = Done (None, Some (status_error (reply_status r) (reply_body r)))).
Proof.
  split; [exact status_error_mentions |].
  split; [| split; [| split]]; intros url r Hreq Hnet Hstatus.
  - rewrite (GetEvent_requested _ _ _ _ _ Hreq). by apply document_request_status.
  - rewrite (SearchEvents_requested _ _ _ _ _ Hreq). by apply paged_request_status.
  - rewrite NextPage_run in *. rewrite (turn_page_requested _ _ _ _ _ _ Hreq).
    by apply paged_request_status.
  - rewrite PreviousPage_run in *. rewrite (turn_page_requested _ _ _ _ _ _ Hreq).
    by apply paged_request_status.
Qed.

(** the example of the specification: 404 with the body "not found" *)
Lemma non_200_is_an_error_witness :
  let pv := Mock.page 20 3 "/discovery/v2/events?page=4&size=20"
                           "/discovery/v2/events?page=2&size=20" in
  let reply := mkReply 404 "not found" None in
  let w := Mock.world (GetOk reply) in
  let s := Mock.state pv in
  let e := Errorf "Status code: 404: not found" in
  (GetEvent w 1%positive "Z7r9jZ1AdFY4P" s).1 = Done (None, Some e)
  ∧ (SearchEvents w 1%positive QP.empty s).1 = Done (None, Some e)
  ∧ (NextPage w 1%positive 1%positive s).1 = Done (None, Some e)
  ∧ (PreviousPage w 1%positive 1%positive s).1 = Done (None, Some e).
Proof.
  intros pv reply w s e.
  destruct (non_200_is_an_error w s 1%positive 1%positive 1%positive
              "Z7r9jZ1AdFY4P" QP.empty)
    as (_ & Hget & Hsearch & Hnext & Hprev).
  split; [| split; [| split]].
  - apply (Hget "https://app.ticketmaster.com/discovery/v2/events/Z7r9jZ1AdFY4P?apikey=k3y"
             reply); [vm_compute; reflexivity | reflexivity | discriminate].
  - apply (Hsearch "https://app.ticketmaster.com/discovery/v2/events?apikey=k3y"
             reply); [vm_compute; reflexivity | reflexivity | discriminate].
  - apply (Hnext "https://app.ticketmaster.com/discovery/v2/events?apikey=k3y&page=4&size=20"
             reply); [vm_compute; reflexivity | reflexivity | discriminate].
  - apply (Hprev "https://app.ticketmaster.com/discovery/v2/events?apikey=k3y&page=2&size=20"
             reply); [vm_compute; reflexivity | reflexivity | discriminate].
Defined.

(** ** Response bodies *)

Lemma fresh_body_None (s : State) : bodies s !! fresh (dom (bodies s)) = None.
Proof. apply not_elem_of_dom, is_fresh. Qed.

Lemma fresh_page_None (s : State) : pages s !! fresh (dom (pages s)) = None.
Proof. apply not_elem_of_dom, is_fresh. Qed.

Lemma closed_since_same w s s' :
  bodies s' = bodies s → requests s' = requests s → closed_since w s s'.
Proof.
  intros Hb Hr. split.
  - intros h b Hs' Hs. rewrite Hb in Hs'. congruence.
  - intros url r Hreq _. by apply not_requested in Hreq.
Qed.

Lemma closed_since_after w s url r new_pages lines :
  transport w url = GetOk r ∨ (∃ e, transport w url = GetRedirectErr r e) →
  closed_since w s (after_request s url r new_pages lines).
Proof.
  intros Ht. split; simpl.
  - intros h b Hs' Hs.
    destruct (decide (h = fresh (dom (bodies s)))) as [->|Hne].
    + rewrite lookup_insert_eq in Hs'. by simplify_eq.
    + rewrite lookup_insert_ne in Hs' by done. congruence.
  - intros url' r' Hreq Ht'. unfold requested in Hreq. simpl in Hreq.
    apply app_inj_tail in Hreq as [_ <-].
    destruct Ht as [Ht | [e Ht]]; rewrite Ht in Ht'; simplify_eq.
    exists (fresh (dom (bodies s))). split; [apply fresh_body_None |].
    apply lookup_insert_eq.
Qed.

Lemma closed_since_failed w s url e :
  transport w url = GetErr e → closed_since w s (add_request url s).
Proof.
  intros Ht. split; simpl.
  - intros h b Hs' Hs. congruence.
  - intros url' r' Hreq Ht'. unfold requested in Hreq. simpl in Hreq.
    apply app_inj_tail in Hreq as [_ <-]. congruence.
Qed.

Lemma paged_request_closes w url s : closed_since w s (paged_request w url s).2.
Proof.
  unfold paged_request.
  destruct (transport w url) as [r|e|r e] eqn:Ht; simpl.
  - repeat case_match; simpl; apply closed_since_after; by left.
  - by eapply closed_since_failed.
  - apply closed_since_after. right. by exists e.
Qed.

Lemma document_request_closes w url s : closed_since w s (document_request w url s).2.
Proof.
  unfold document_request.
  destruct (transport w url) as [r|e|r e] eqn:Ht; simpl.
  - repeat case_match; simpl; apply closed_since_after; by left.
  - by eapply closed_since_failed.
  - apply closed_since_after. right. by exists e.
Qed.

Lemma turn_page_closes w p client link s :
  closed_since w s (turn_page w p client link s).2.
Proof.
  unfold turn_page.
  repeat case_match; simpl;
    first [ apply paged_request_closes | by apply closed_since_same ].
Qed.

(** C8. Each of the four operations closes the response body before it
    returns, whatever the outcome: every body stream opened during the call
    is closed at its end, and whenever the request was answered without a
    transport error (success, a status other than 200, a body that does not
    decode) the body of that very reply was opened and is now closed. *)
Theorem body_closed_on_return (w : World) (s : State) (d p client : loc)
    (id : string) (q : QueryParams) :
  closed_since w s (GetEvent w d id s).2
  ∧ closed_since w s (SearchEvents w d q s).2
  ∧ closed_since w s (NextPage w p client s).2
  ∧ closed_since w s (PreviousPage w p client s).2.
Proof.
  split; [| split; [| split]].
  - rewrite GetEvent_run. destruct (clients s !! d) as [c|]; simpl.
    + exact (document_request_closes w _ (add_log _ s)).
    + by apply closed_since_same.
  - rewrite SearchEvents_run. destruct (clients s !! d) as [c|]; simpl.
    + apply paged_request_closes.
    + by apply closed_since_same.
  - rewrite NextPage_run. apply turn_page_closes.
  - rewrite PreviousPage_run. apply turn_page_closes.
Qed.

(** The three outcomes on a concrete page: after a 200 with a body that
    decodes, after a 404, and after a 200 with a body that does not decode,
    the body of the reply was opened by the call and is closed. *)
Lemma body_closed_on_return_witness :
  let pv := Mock.page 20 3 "/discovery/v2/events?page=4&size=20" "" in
  let s := Mock.state pv in
  let closed_after (reply : Reply) :=
    ∃ h, bodies s !! h = None
         ∧ bodies (NextPage (Mock.world (GetOk reply)) 1%positive 1%positive s).2 !! h
           = Some (closed_body reply) in
  closed_after (mkReply 200 "{}" None)
  ∧ closed_after (mkReply 404 "not found" None)
  ∧ closed_after (mkReply 200 "{" None).
Proof.
  intros pv s closed_after.
  assert (H : ∀ reply, closed_after reply).
  { intros reply.
    destruct (body_closed_on_return (Mock.world (GetOk reply)) s 1%positive
                1%positive 1%positive "Z7r9jZ1AdFY4P" QP.empty)
      as (_ & _ & [_ Hnext] & _).
    apply (Hnext "https://app.ticketmaster.com/discovery/v2/events?apikey=k3y&page=4&size=20").
    - rewrite NextPage_run. apply paged_request_requested.
      vm_compute. reflexivity.
    - reflexivity. }
  split; [apply H | split; apply H].
Defined.

(** ** What the pagination calls leave alone *)

Lemma paged_request_left_alone w p client url s :
  is_Some (pages s !! p) →
  left_alone w p client s (paged_request w url s).
Proof.
  intros Hp. unfold left_alone, paged_request.
  destruct (transport w url) as [r|e|r e] eqn:Ht; simpl;
    [| by repeat split; intros; simplify_eq.. ].
  destruct (reply_status r =? 200)%Z; simpl;
    [| by repeat split; intros; simplify_eq ].
  destruct (decode_PagedResponse w (reply_body r) (reply_read_err r)) as [e|rs] eqn:Hd;
    simpl; [ by repeat split; intros; simplify_eq |].
  assert (Hfresh : ∀ l, is_Some (pages s !! l) → fresh (dom (pages s)) ≠ l).
  { intros l [v Hl] Heq. rewrite <- Heq, fresh_page_None in Hl. discriminate. }
  split; [by rewrite lookup_insert_ne by auto |].
  split; [done |]. split; [done |].
  split; [intros l Hl; by rewrite lookup_insert_ne by auto |].
  intros l Hl. simplify_eq.
  split; [apply fresh_page_None |].
  split; [by apply Hfresh |].
  exists url, r, rs. by rewrite lookup_insert_eq.
Qed.

Lemma turn_page_left_alone w p client link s :
  left_alone w p client s (turn_page w p client link s).
Proof.
  unfold turn_page.
  destruct (pages s !! p) as [pv|] eqn:Hp;
    [| by repeat split; intros; simplify_eq ].
  repeat case_match;
    first [ apply paged_request_left_alone; by rewrite Hp
          | by repeat split; intros; simplify_eq ].
Qed.

(** C9. [NextPage] and [PreviousPage] write neither to their receiver nor
    to the client: after the call the receiver holds the same links, page and
    embedded documents, the client the same URL and key, and every other page
    that existed is as before.  A call that succeeds returns a pointer to a
    new page, which holds what was decoded from the body of the reply. *)
Theorem pagination_writes_nothing (w : World) (s : State) (p client : loc) :
  left_alone w p client s (NextPage w p client s)
  ∧ left_alone w p client s (PreviousPage w p client s).
Proof.
  rewrite NextPage_run, PreviousPage_run.
  split; apply turn_page_left_alone.
Qed.

(** A successful call on a concrete page: the receiver at address 1 and
    the client are as before, and the page returned is a new one. *)
Lemma pagination_writes_nothing_witness :
  let pv := Mock.page 20 3 "/discovery/v2/events?page=4&size=20" "" in
  let s := Mock.state pv in
  let out := NextPage (Mock.world (GetOk (mkReply 200 "{}" None)))
                      1%positive 1%positive s in
  out.1 = Done (Some 2%positive, None)
  ∧ pages out.2 !! 1%positive = Some pv
  ∧ clients out.2 !! 1%positive = Some Mock.client
  ∧ pages s !! 2%positive = None
  ∧ is_Some (pages out.2 !! 2%positive).
Proof.
  intros pv s out.
  destruct (pagination_writes_nothing (Mock.world (GetOk (mkReply 200 "{}" None)))
              s 1%positive 1%positive)
    as [(Hp & Hc & _ & _ & Hnew) _].
  assert (Hout : out.1 = Done (Some 2%positive, None)) by (vm_compute; reflexivity).
  split; [exact Hout |].
  split; [exact Hp |].
  split; [exact Hc |].
  destruct (Hnew 2%positive Hout) as (Hfresh & _ & url & reply & rs & _ & _ & _ & Hrs).
  split; [exact Hfresh |]. by exists rs.
Defined.

(** ** [NextPage] and [PreviousPage] are one function *)

Lemma paged_request_rewire w p url s :
  is_Some (pages s !! p) →
  paged_request w url (rewire p s)
  = ((paged_request w url s).1, rewire p (paged_request w url s).2).
Proof.
  intros [pv Hp]. unfold paged_request, rewire, after_request, add_request, set_pages.
  simpl. rewrite dom_alter_L.
  repeat case_match; simpl; try reflexivity.
  rewrite alter_insert_ne; [reflexivity |].
  intros Heq. rewrite Heq, fresh_page_None in Hp. discriminate.
Qed.

Lemma turn_page_rewire w p client s :
  turn_page w p client Prev (rewire p s)
  = ((turn_page w p client Next s).1, rewire p (turn_page w p client Next s).2).
Proof.
  unfold turn_page. simpl. rewrite lookup_alter_eq.
  destruct (pages s !! p) as [pv|] eqn:Hp; simpl; [| reflexivity].
  repeat case_match; simpl; try reflexivity.
  apply paged_request_rewire. by rewrite Hp.
Qed.

(** C10. [NextPage] and [PreviousPage] are the same function up to the link
    they read: for every world, every state, every receiver [p] and client,
    [PreviousPage] on [p] with [Links.Prev] set to [p]'s [Links.Next] ends as
    [NextPage] on [p] does: the same result (the same page pointer, the same
    error, the same panic) and the same state (pages, client, body streams,
    requests made and lines logged), the rewritten receiver apart. *)
Theorem previous_page_is_next_page (w : World) (s : State) (p client : loc) :
  PreviousPage w p client (rewire p s)
  = ((NextPage w p client s).1, rewire p (NextPage w p client s).2).
Proof.
  rewrite NextPage_run, PreviousPage_run. apply turn_page_rewire.
Qed.

(** * Further properties *)

(** ** What becomes of an answer *)

Lemma paged_request_undecodable w url s r e :
  transport w url = GetOk r → reply_status r = 200%Z →
  decode_PagedResponse w (reply_body r) (reply_read_err r) = inl e →
  paged_request w url s
  = (Done (None, Some e), after_request s url r (pages s) [status_line r; Error e]).
Proof. intros Ht Hs Hd. unfold paged_request. by rewrite Ht, Hs, Hd. Qed.

Lemma document_request_undecodable w url s r e :
  transport w url = GetOk r → reply_status r = 200%Z →
  decode_Document w (reply_body r) (reply_read_err r) = inl e →
  document_request w url s
  = (Done (None, Some e), after_request s url r (pages s) [status_line r; Error e]).
Proof. intros Ht Hs Hd. unfold document_request. by rewrite Ht, Hs, Hd. Qed.

Lemma paged_request_decoded w url s r rs :
  transport w url = GetOk r → reply_status r = 200%Z →
  decode_PagedResponse w (reply_body r) (reply_read_err r) = inr rs →
  paged_request w url s
  = (Done (Some (fresh (dom (pages s))), None),
     after_request s url r (<[fresh (dom (pages s)) := rs]> (pages s)) [status_line r]).
Proof. intros Ht Hs Hd. unfold paged_request. by rewrite Ht, Hs, Hd. Qed.

Lemma document_request_decoded w url s r doc :
  transport w url = GetOk r → reply_status r = 200%Z →
  decode_Document w (reply_body r) (reply_read_err r) = inr doc →
  document_request w url s
  = (Done (Some doc, None), after_request s url r (pages s) [status_line r]).
Proof. intros Ht Hs Hd. unfold document_request. by rewrite Ht, Hs, Hd. Qed.

(** X1. A reply with status 200 whose body the JSON decoder rejects makes
    each of the four operations return a nil result together with the
    decoder's error; no page is created. *)
Theorem undecodable_body_is_an_error (w : World) (s : State) (d p client : loc)
    (id : string) (q : QueryParams) (r : Reply) (e : error) :
  reply_status r = 200%Z →
  (decode_Document w (reply_body r) (reply_read_err r) = inl e →
   answered w s (GetEvent w d id s).2 r →
   (GetEvent w d id s).1 = Done (None, Some e)
   ∧ pages (GetEvent w d id s).2 = pages s)
  ∧ (decode_PagedResponse w (reply_body r) (reply_read_err r) = inl e →
     (answered w s (SearchEvents w d q s).2 r →
      (SearchEvents w d q s).1 = Done (None, Some e)
      ∧ pages (SearchEvents w d q s).2 = pages s)
     ∧ (answered w s (NextPage w p client s).2 r →
        (NextPage w p client s).1 = Done (None, Some e)
        ∧ pages (NextPage w p client s).2 = pages s)
     ∧ (answered w s (PreviousPage w p client s).2 r →
        (PreviousPage w p client s).1 = Done (None, Some e)
        ∧ pages (PreviousPage w p client s).2 = pages s)).
Proof.
  intros Hstatus. split; [| intros Hdec; split; [| split]].
  - intros Hdec (url & Hreq & Hnet).
    rewrite (GetEvent_requested _ _ _ _ _ Hreq).
    by rewrite (document_request_undecodable _ _ _ _ _ Hnet Hstatus Hdec).
  - intros (url & Hreq & Hnet).
    rewrite (SearchEvents_requested _ _ _ _ _ Hreq).
    by rewrite (paged_request_undecodable _ _ _ _ _ Hnet Hstatus Hdec).
  - intros (url & Hreq & Hnet). rewrite NextPage_run in *.
    rewrite (turn_page_requested _ _ _ _ _ _ Hreq).
    by rewrite (paged_request_undecodable _ _ _ _ _ Hnet Hstatus Hdec).
  - intros (url & Hreq & Hnet). rewrite PreviousPage_run in *.
    rewrite (turn_page_requested _ _ _ _ _ _ Hreq).
    by rewrite (paged_request_undecodable _ _ _ _ _ Hnet Hstatus Hdec).
Qed.

(** a gateway that answers 200 with a page of HTML *)
Lemma undecodable_body_is_an_error_witness :
  let pv := Mock.page 20 3 "/discovery/v2/events?page=4&size=20"
                           "/discovery/v2/events?page=2&size=20" in
  let reply := mkReply 200 "<html>" None in
  let w := Mock.world (GetOk reply) in
  let s := Mock.state pv in
  let e := DecodeError "invalid character" in
  (GetEvent w 1%positive "Z7r9jZ1AdFY4P" s).1 = Done (None, Some e)
  ∧ (SearchEvents w 1%positive QP.empty s).1 = Done (None, Some e)
  ∧ (NextPage w 1%positive 1%positive s).1 = Done (None, Some e)
  ∧ (PreviousPage w 1%positive 1%positive s).1 = Done (None, Some e).
Proof.
  intros pv reply w s e.
  destruct (undecodable_body_is_an_error w s 1%positive 1%positive 1%positive
              "Z7r9jZ1AdFY4P" QP.empty reply e eq_refl)
    as (Hget & Hpaged).
  destruct (Hpaged eq_refl) as (Hsearch & Hnext & Hprev).
  split; [| split; [| split]].
  - apply (Hget eq_refl).
    exists "https://app.ticketmaster.com/discovery/v2/events/Z7r9jZ1AdFY4P?apikey=k3y".
    split; vm_compute; reflexivity.
  - apply Hsearch.
    exists "https://app.ticketmaster.com/discovery/v2/events?apikey=k3y".
    split; vm_compute; reflexivity.
  - apply Hnext.
    exists "https://app.ticketmaster.com/discovery/v2/events?apikey=k3y&page=4&size=20".
    split; vm_compute; reflexivity.
  - apply Hprev.
    exists "https://app.ticketmaster.com/discovery/v2/events?apikey=k3y&page=2&size=20".
    split; vm_compute; reflexivity.
Defined.

(** X2. A reply with status 200 whose body decodes is the result:
    [GetEvent] returns the decoded document and no error; [SearchEvents],
    [NextPage] and [PreviousPage] return, with no error, a pointer to a new
    page that holds the decoded value, and every page that existed is as it
    was. *)
Theorem decoded_body_is_returned (w : World) (s : State) (d p client : loc)
    (id : string) (q : QueryParams) (r : Reply) :
  reply_status r = 200%Z →
  (∀ doc, decode_Document w (reply_body r) (reply_read_err r) = inr doc →
     answered w s (GetEvent w d id s).2 r →
     (GetEvent w d id s).1 = Done (Some doc, None)
     ∧ pages (GetEvent w d id s).2 = pages s)
  ∧ (∀ rs, decode_PagedResponse w (reply_body r) (reply_read_err r) = inr rs →
     ∀ op, op ∈ [SearchEvents w d q; NextPage w p client; PreviousPage w p client] →
     answered w s (op s).2 r →
     ∃ l, (op s).1 = Done (Some l, None)
          ∧ pages s !! l = None
          ∧ pages (op s).2 = <[l := rs]> (pages s)).
Proof.
  intros Hstatus. split.
  - intros doc Hdec (url & Hreq & Hnet).
    rewrite (GetEvent_requested _ _ _ _ _ Hreq).
    by rewrite (document_request_decoded _ _ _ _ _ Hnet Hstatus Hdec).
  - intros rs Hdec op Hop (url & Hreq & Hnet).
    assert (Hrun : op s = paged_request w url s).
    { apply list_elem_of_In in Hop. simpl in Hop.
      destruct Hop as [<- | [<- | [<- | []]]].
      - by apply SearchEvents_requested.
      - rewrite NextPage_run in *. by apply turn_page_requested.
      - rewrite PreviousPage_run in *. by apply turn_page_requested. }
    rewrite Hrun, (paged_request_decoded _ _ _ _ _ Hnet Hstatus Hdec).
    exists (fresh (dom (pages s))). split; [done |]. split; [apply fresh_page_None | done].
Qed.

(** the empty object, which the test decoder understands, on a state whose
    one page sits at address 1: the new page is at address 2 *)
Lemma decoded_body_is_returned_witness :
  let pv := Mock.page 20 3 "/discovery/v2/events?page=4&size=20"
                           "/discovery/v2/events?page=2&size=20" in
  let reply := mkReply 200 "{}" None in
  let w := Mock.world (GetOk reply) in
  let s := Mock.state pv in
  (GetEvent w 1%positive "Z7r9jZ1AdFY4P" s).1 = Done (Some [], None)
  ∧ ∃ l, (NextPage w 1%positive 1%positive s).1 = Done (Some l, None)
         ∧ pages s !! l = None
         ∧ pages (NextPage w 1%positive 1%positive s).2
           = <[l := PR.mk Mock.no_links (mkPage 0 0 0 0) Mock.nothing]> (pages s).
Proof.
  intros pv reply w s.
  destruct (decoded_body_is_returned w s 1%positive 1%positive 1%positive
              "Z7r9jZ1AdFY4P" QP.empty reply eq_refl)
    as (Hget & Hpaged).
  split.
  - apply (Hget [] eq_refl).
    exists "https://app.ticketmaster.com/discovery/v2/events/Z7r9jZ1AdFY4P?apikey=k3y".
    split; vm_compute; reflexivity.
  - apply (Hpaged _ eq_refl (NextPage w 1%positive 1%positive)).
    + apply list_elem_of_In. right. left. reflexivity.
    + exists "https://app.ticketmaster.com/discovery/v2/events?apikey=k3y&page=4&size=20".
      split; vm_compute; reflexivity.
Defined.

Lemma paged_request_answered_with_error w url s r e :
  transport w url = GetRedirectErr r e →
  paged_request w url s = (Done (None, Some e), after_request s url r (pages s) [Error e]).
Proof. intros Ht. unfold paged_request. by rewrite Ht. Qed.

Lemma document_request_answered_with_error w url s r e :
  transport w url = GetRedirectErr r e →
  document_request w url s
  = (Done (None, Some e), after_request s url r (pages s) [Error e]).
Proof. intros Ht. unfold document_request. by rewrite Ht. Qed.

(** X3. When [http.Get] returns a response together with an error (a
    redirect that could not be followed), each of the four operations returns
    a nil result and that error, whatever the status and the body of the
    response: neither is looked at, nothing is decoded, and the line logged
    last is the error. *)
Theorem response_with_error_is_that_error (w : World) (s : State) (d p client : loc)
    (id : string) (q : QueryParams) (r : Reply) (e : error) :
  (answered_with_error w s (GetEvent w d id s).2 r e →
   (GetEvent w d id s).1 = Done (None, Some e)
   ∧ pages (GetEvent w d id s).2 = pages s
   ∧ last (logged (GetEvent w d id s).2) = Some (Error e))
  ∧ (∀ op, op ∈ [SearchEvents w d q; NextPage w p client; PreviousPage w p client] →
     answered_with_error w s (op s).2 r e →
     (op s).1 = Done (None, Some e)
     ∧ pages (op s).2 = pages s
     ∧ logged (op s).2 = logged s ++ [Error e]).
Proof.
  split.
  - intros (url & Hreq & Hnet).
    rewrite (GetEvent_requested _ _ _ _ _ Hreq).
    rewrite (document_request_answered_with_error _ _ _ _ _ Hnet). simpl.
    split; [done |]. split; [done |]. by rewrite last_snoc.
  - intros op Hop (url & Hreq & Hnet).
    assert (Hrun : op s = paged_request w url s).
    { apply list_elem_of_In in Hop. simpl in Hop.
      destruct Hop as [<- | [<- | [<- | []]]].
      - by apply SearchEvents_requested.
      - rewrite NextPage_run in *. by apply turn_page_requested.
      - rewrite PreviousPage_run in *. by apply turn_page_requested. }
    by rewrite Hrun, (paged_request_answered_with_error _ _ _ _ _ Hnet).
Qed.

(** a chain of redirects that is too long: the response is the last 302,
    the error is the client's *)
Lemma response_with_error_is_that_error_witness :
  let pv := Mock.page 20 3 "/discovery/v2/events?page=4&size=20"
                           "/discovery/v2/events?page=2&size=20" in
  let reply := mkReply 302 "" None in
  let e := TransportError "stopped after 10 redirects" in
  let w := Mock.world (GetRedirectErr reply e) in
  let s := Mock.state pv in
  (GetEvent w 1%positive "Z7r9jZ1AdFY4P" s).1 = Done (None, Some e)
  ∧ (SearchEvents w 1%positive QP.empty s).1 = Done (None, Some e).
Proof.
  intros pv reply e w s.
  destruct (response_with_error_is_that_error w s 1%positive 1%positive 1%positive
              "Z7r9jZ1AdFY4P" QP.empty reply e)
    as (Hget & Hpaged).
  split.
  - apply Hget.
    exists "https://app.ticketmaster.com/discovery/v2/events/Z7r9jZ1AdFY4P?apikey=k3y".
    split; vm_compute; reflexivity.
  - apply (Hpaged (SearchEvents w 1%positive QP.empty)).
    + apply list_elem_of_In. left. reflexivity.
    + exists "https://app.ticketmaster.com/discovery/v2/events?apikey=k3y".
      split; vm_compute; reflexivity.
Defined.

(** ** When the pagination calls contact the network, and where *)

Lemma with_key_Query (u : URL) (key : string) :
  Query (with_key u key) = <["apikey" := [key]]> (Query u).
Proof. unfold with_key. by rewrite Query_with_Encode by apply proper_Set, proper_Query. Qed.

Lemma turn_page_requests w p client link s url :
  requested s (turn_page w p client link s).2 url
  ↔ ∃ c rel, turns_to w s p client link c rel
             ∧ url = URL_String (with_key rel (ApiKey c)).
Proof.
  unfold turn_page, turns_to, page_url. split.
  - destruct (pages s !! p) as [pv|] eqn:Hp; simpl;
      [| by intros ?%not_requested].
    destruct (Z.leb_spec 1000 (int_mul (Size (PR.Page pv)) (Number (PR.Page pv))));
      simpl; [by intros ?%not_requested |].
    destruct (clients s !! client) as [c|] eqn:Hc; simpl;
      [| by intros ?%not_requested].
    destruct (String.eqb_spec (Href (link (PR.Links pv))) "") as [|Hne]; simpl;
      [by intros ?%not_requested |].
    destruct (url_Parse w (ApiUrl c) (Href (link (PR.Links pv)))) as [rel|] eqn:Hrel;
      simpl; [| by intros ?%not_requested].
    intros ->%paged_request_requested. exists c, rel. split; [| done].
    by exists pv.
  - intros (c & rel & (pv & Hp & Hguard & Hc & Hne & Hrel) & ->).
    rewrite Hp. apply Z.leb_gt in Hguard. rewrite Hguard, Hc.
    apply String.eqb_neq in Hne. rewrite Hne, Hrel. simpl.
    by apply paged_request_requested.
Qed.

(** X4. [NextPage] contacts the network exactly when the receiver is below
    the depth limit, the client is there, and the next link is not empty and
    resolves against the client's base URL; [PreviousPage] likewise for the
    previous link.  The one URL requested is then the resolved link with its
    query re-encoded: the parameter [apikey] holds the client's key, in place
    of whatever the link had under that name, the other parameters are those
    of the link, and nothing but the query differs from the resolved link. *)
Theorem page_request (w : World) (s : State) (p client : loc) (url : string) :
  (requested s (NextPage w p client s).2 url
   ↔ ∃ c rel, turns_to w s p client Next c rel
              ∧ url = URL_String (with_key rel (ApiKey c)))
  ∧ (requested s (PreviousPage w p client s).2 url
     ↔ ∃ c rel, turns_to w s p client Prev c rel
                ∧ url = URL_String (with_key rel (ApiKey c)))
  ∧ ∀ rel key,
      with_RawQuery (with_key rel key) "" = with_RawQuery rel ""
      ∧ param (with_key rel key) "apikey" = Some [key]
      ∧ ∀ k, k ≠ "apikey" → param (with_key rel key) k = param rel k.
Proof.
  split; [| split].
  - rewrite NextPage_run. apply turn_page_requests.
  - rewrite PreviousPage_run. apply turn_page_requests.
  - intros rel key. unfold param. rewrite with_key_Query.
    split; [done |]. split; [apply lookup_insert_eq |].
    intros k Hk. by apply lookup_insert_ne.
Qed.

(** a link that brings a key of its own: the request carries the client's *)
Lemma page_request_witness :
  let pv := Mock.page 20 3 "/discovery/v2/events?page=4&size=20&apikey=other"
                           "/discovery/v2/events?page=2&size=20" in
  let w := Mock.world (GetOk (mkReply 200 "{}" None)) in
  let s := Mock.state pv in
  requested s (NextPage w 1%positive 1%positive s).2
    "https://app.ticketmaster.com/discovery/v2/events?apikey=k3y&page=4&size=20"
  ∧ requested s (PreviousPage w 1%positive 1%positive s).2
      "https://app.ticketmaster.com/discovery/v2/events?apikey=k3y&page=2&size=20".
Proof.
  intros pv w s.
  split.
  - apply (page_request w s 1%positive 1%positive).
    exists Mock.client.
    exists (mkURL "https" "" None "app.ticketmaster.com" "/discovery/v2/events" ""
                  false false "page=4&size=20&apikey=other" "" "").
    split; [| vm_compute; reflexivity].
    exists pv. repeat split; (discriminate || reflexivity).
  - apply (page_request w s 1%positive 1%positive).
    exists Mock.client.
    exists (mkURL "https" "" None "app.ticketmaster.com" "/discovery/v2/events" ""
                  false false "page=2&size=20" "" "").
    split; [| vm_compute; reflexivity].
    exists pv. repeat split; (discriminate || reflexivity).
Defined.

(** X5. A link that does not parse ends the call in a panic: the error of
    [baseUrl.Parse] is dropped and the nil URL it returned is used.  This
    happens before any request is made, and the state is as it was. *)
Theorem unparsable_link_panics (w : World) (s : State) (p client : loc)
    (pv : PagedResponse) (c : DiscoveryClient) :
  pages s !! p = Some pv →
  (int_mul (Size (PR.Page pv)) (Number (PR.Page pv)) < 1000)%Z →
  clients s !! client = Some c →
  (Href (Next (PR.Links pv)) ≠ "" →
   url_Parse w (ApiUrl c) (Href (Next (PR.Links pv))) = None →
   NextPage w p client s = (Panic nil_dereference, s))
  ∧ (Href (Prev (PR.Links pv)) ≠ "" →
     url_Parse w (ApiUrl c) (Href (Prev (PR.Links pv))) = None →
     PreviousPage w p client s = (Panic nil_dereference, s)).
Proof.
  intros Hp Hguard%Z.leb_gt Hc.
  split; intros Hne%String.eqb_neq Hrel.
  - rewrite NextPage_run. unfold turn_page, page_url.
    by rewrite Hp, Hguard, Hc, Hne, Hrel.
  - rewrite PreviousPage_run. unfold turn_page, page_url.
    by rewrite Hp, Hguard, Hc, Hne, Hrel.
Qed.

(** links with a malformed escape *)
Lemma unparsable_link_panics_witness :
  let pv := Mock.page 20 3 "/discovery/v2/events%zz?page=4" "/discovery/v2/%?page=2" in
  let w := Strict.world (GetOk (mkReply 200 "{}" None)) in
  let s := Mock.state pv in
  NextPage w 1%positive 1%positive s = (Panic nil_dereference, s)
  ∧ PreviousPage w 1%positive 1%positive s = (Panic nil_dereference, s).
Proof.
  intros pv w s.
  destruct (unparsable_link_panics w s 1%positive 1%positive pv Mock.client)
    as (Hnext & Hprev); [reflexivity | reflexivity | reflexivity |].
  split; [apply Hnext | apply Hprev]; (discriminate || reflexivity).
Defined.

(** ** What a result says about the call *)

Lemma paged_request_result w url s l :
  (paged_request w url s).1 = Done (Some l, None) →
  ∃ r rs, transport w url = GetOk r ∧ reply_status r = 200%Z
          ∧ decode_PagedResponse w (reply_body r) (reply_read_err r) = inr rs
          ∧ pages (paged_request w url s).2 !! l = Some rs.
Proof.
  unfold paged_request.
  destruct (transport w url) as [r|e|r e]; simpl; [| done | done].
  destruct (Z.eqb_spec (reply_status r) 200) as [Hs|Hs]; simpl; [| done].
  destruct (decode_PagedResponse w (reply_body r) (reply_read_err r)) as [e|rs] eqn:Hd;
    simpl; [done |].
  intros [= <-]. exists r, rs. by rewrite lookup_insert_eq.
Qed.

Lemma document_request_result w url s doc :
  (document_request w url s).1 = Done (Some doc, None) →
  ∃ r, transport w url = GetOk r ∧ reply_status r = 200%Z
       ∧ decode_Document w (reply_body r) (reply_read_err r) = inr doc.
Proof.
  unfold document_request.
  destruct (transport w url) as [r|e|r e]; simpl; [| done | done].
  destruct (Z.eqb_spec (reply_status r) 200) as [Hs|Hs]; simpl; [| done].
  destruct (decode_Document w (reply_body r) (reply_read_err r)) as [e|rs] eqn:Hd;
    simpl; [done |].
  intros [= <-]. by exists r.
Qed.

(** a pagination call is its request, or it stops before, in one of four ways *)
Lemma turn_page_cases w p client link s :
  (∃ url, turn_page w p client link s = paged_request w url s)
  ∨ (turn_page w p client link s).2 = s
    ∧ ((∃ msg, (turn_page w p client link s).1 = Panic msg)
       ∨ (∃ pv, pages s !! p = Some pv
                ∧ (1000 ≤ int_mul (Size (PR.Page pv)) (Number (PR.Page pv)))%Z
                ∧ (turn_page w p client link s).1 = Done (None, Some (depth_error pv)))
       ∨ (∃ pv c, pages s !! p = Some pv
                  ∧ (int_mul (Size (PR.Page pv)) (Number (PR.Page pv)) < 1000)%Z
                  ∧ clients s !! client = Some c
                  ∧ Href (link (PR.Links pv)) = ""
                  ∧ (turn_page w p client link s).1 = Done (None, None))).
Proof.
  unfold turn_page.
  destruct (pages s !! p) as [pv|] eqn:Hp; simpl; [| right; eauto].
  destruct (Z.leb_spec 1000 (int_mul (Size (PR.Page pv)) (Number (PR.Page pv))));
    simpl; [right; split; [done |]; right; left; eauto |].
  destruct (clients s !! client) as [c|] eqn:Hc; simpl; [| right; eauto].
  destruct (String.eqb_spec (Href (link (PR.Links pv))) "") as [Hl|Hl]; simpl.
  { right. split; [done |]. right. right. exists pv, c. eauto. }
  destruct (page_url w c (Href (link (PR.Links pv)))) as [url|]; [| right; eauto].
  left. by exists url.
Qed.

Lemma paged_request_is_requested w url s : requested s (paged_request w url s).2 url.
Proof. by apply paged_request_requested. Qed.

Lemma paged_op_cases w d q p client s op :
  op ∈ [SearchEvents w d q; NextPage w p client; PreviousPage w p client] →
  (∃ url, op s = paged_request w url s)
  ∨ (op s).2 = s ∧ ∀ l, (op s).1 ≠ Done (Some l, None).
Proof.
  intros Hop. apply list_elem_of_In in Hop. simpl in Hop.
  assert (Hturn : ∀ link,
    (∃ url, turn_page w p client link s = paged_request w url s)
    ∨ (turn_page w p client link s).2 = s
      ∧ ∀ l, (turn_page w p client link s).1 ≠ Done (Some l, None)).
  { intros link.
    destruct (turn_page_cases w p client link s)
      as [? | [Hs [[msg Hr] | [(pv & _ & _ & Hr) | (pv & c & _ & _ & _ & _ & Hr)]]]];
      [by left | right; split; [done |]; intros l; by rewrite Hr ..]. }
  destruct Hop as [<- | [<- | [<- | []]]].
  - rewrite SearchEvents_run. destruct (clients s !! d) as [c|]; [left; eauto |].
    by right.
  - rewrite NextPage_run. apply Hturn.
  - rewrite PreviousPage_run. apply Hturn.
Qed.

(** X6. A result is returned only for a reply with status 200 that
    decoded: when [GetEvent] returns a document, or [SearchEvents],
    [NextPage] or [PreviousPage] a page, and no error, the call made its
    request, the network answered it without error and with status 200, and
    what is returned is what the decoder made of the body. *)
Theorem result_needs_200 (w : World) (s : State) (d p client : loc)
    (id : string) (q : QueryParams) :
  (∀ doc, (GetEvent w d id s).1 = Done (Some doc, None) →
     ∃ r, answered w s (GetEvent w d id s).2 r
          ∧ reply_status r = 200%Z
          ∧ decode_Document w (reply_body r) (reply_read_err r) = inr doc)
  ∧ (∀ op, op ∈ [SearchEvents w d q; NextPage w p client; PreviousPage w p client] →
     ∀ l, (op s).1 = Done (Some l, None) →
     ∃ r rs, answered w s (op s).2 r
             ∧ reply_status r = 200%Z
             ∧ decode_PagedResponse w (reply_body r) (reply_read_err r) = inr rs
             ∧ pages (op s).2 !! l = Some rs).
Proof.
  split.
  - intros doc. rewrite GetEvent_run.
    destruct (clients s !! d) as [c|]; [cbv zeta | done].
    intros Hres. destruct (document_request_result _ _ _ _ Hres) as (r & Ht & Hs & Hd).
    exists r. split; [| done].
    exists (URL_String (JoinPath (EventsUrl c) [id])). split; [| done].
    by apply (document_request_requested w _ (add_log _ s)).
  - intros op Hop l Hres.
    destruct (paged_op_cases _ _ _ _ _ s _ Hop) as [[url Hrun] | [_ Hno]];
      [| by apply Hno in Hres].
    rewrite Hrun in *.
    destruct (paged_request_result _ _ _ _ Hres) as (r & rs & Ht & Hs & Hd & Hl).
    exists r, rs. split; [| done].
    exists url. split; [apply paged_request_is_requested | done].
Qed.

(** the search that succeeds, read backwards *)
Lemma result_needs_200_witness :
  let reply := mkReply 200 "{}" None in
  let w := Mock.world (GetOk reply) in
  let s := Mock.state (Mock.page 20 3 "" "") in
  ∃ r rs, answered w s (SearchEvents w 1%positive QP.empty s).2 r
          ∧ reply_status r = 200%Z
          ∧ decode_PagedResponse w (reply_body r) (reply_read_err r) = inr rs
          ∧ pages (SearchEvents w 1%positive QP.empty s).2 !! 2%positive = Some rs.
Proof.
  intros reply w s.
  destruct (result_needs_200 w s 1%positive 1%positive 1%positive "" QP.empty)
    as (_ & Hpaged).
  apply (Hpaged (SearchEvents w 1%positive QP.empty)).
  - apply list_elem_of_In. left. reflexivity.
  - vm_compute. reflexivity.
Defined.

Lemma paged_request_not_nil_nil w url s :
  (paged_request w url s).1 ≠ Done (None, None).
Proof. unfold paged_request. by repeat case_match. Qed.

Lemma paged_request_not_both w url s l e :
  (paged_request w url s).1 ≠ Done (Some l, Some e).
Proof. unfold paged_request. by repeat case_match. Qed.

Lemma document_request_not_nil_nil w url s :
  (document_request w url s).1 ≠ Done (None, None).
Proof. unfold document_request. by repeat case_match. Qed.

Lemma document_request_not_both w url s doc e :
  (document_request w url s).1 ≠ Done (Some doc, Some e).
Proof. unfold document_request. by repeat case_match. Qed.

Lemma turn_page_nil_nil w p client link s :
  (turn_page w p client link s).1 = Done (None, None)
  ↔ ∃ pv c, pages s !! p = Some pv
            ∧ (int_mul (Size (PR.Page pv)) (Number (PR.Page pv)) < 1000)%Z
            ∧ clients s !! client = Some c
            ∧ Href (link (PR.Links pv)) = "".
Proof.
  split.
  - destruct (turn_page_cases w p client link s)
      as [[url Hrun] | [_ [[msg Hr] | [(pv & _ & _ & Hr) | (pv & c & ? & ? & ? & ? & _)]]]].
    + rewrite Hrun. by intros ?%paged_request_not_nil_nil.
    + by rewrite Hr.
    + by rewrite Hr.
    + intros _. by exists pv, c.
  - intros (pv & c & Hp & Hguard%Z.leb_gt & Hc & Hl). unfold turn_page.
    by rewrite Hp, Hguard, Hc, Hl.
Qed.

(** X7. The two results are never both there, and they are both nil in one
    case only: [NextPage] and [PreviousPage] return (nil, nil) exactly when
    the receiver is below the depth limit, the client is there and the link
    is empty; [GetEvent] and [SearchEvents] never do.  So a caller that finds
    no error has a result, except at the last (or first) page. *)
Theorem nil_nil_means_no_link (w : World) (s : State) (d p client : loc)
    (id : string) (q : QueryParams) :
  (GetEvent w d id s).1 ≠ Done (None, None)
  ∧ (∀ doc e, (GetEvent w d id s).1 ≠ Done (Some doc, Some e))
  ∧ (SearchEvents w d q s).1 ≠ Done (None, None)
  ∧ (∀ op, op ∈ [SearchEvents w d q; NextPage w p client; PreviousPage w p client] →
     ∀ l e, (op s).1 ≠ Done (Some l, Some e))
  ∧ ((NextPage w p client s).1 = Done (None, None)
     ↔ ∃ pv c, pages s !! p = Some pv
               ∧ (int_mul (Size (PR.Page pv)) (Number (PR.Page pv)) < 1000)%Z
               ∧ clients s !! client = Some c
               ∧ Href (Next (PR.Links pv)) = "")
  ∧ ((PreviousPage w p client s).1 = Done (None, None)
     ↔ ∃ pv c, pages s !! p = Some pv
               ∧ (int_mul (Size (PR.Page pv)) (Number (PR.Page pv)) < 1000)%Z
               ∧ clients s !! client = Some c
               ∧ Href (Prev (PR.Links pv)) = "").
Proof.
  split; [| split; [| split; [| split; [| split]]]].
  - rewrite GetEvent_run. destruct (clients s !! d); [| done].
    apply document_request_not_nil_nil.
  - intros doc e. rewrite GetEvent_run. destruct (clients s !! d); [| done].
    apply document_request_not_both.
  - rewrite SearchEvents_run. destruct (clients s !! d); [| done].
    apply paged_request_not_nil_nil.
  - intros op Hop l e.
    destruct (paged_op_cases _ _ _ _ _ s _ Hop) as [[url Hrun] | [Hs Hno]].
    + rewrite Hrun. apply paged_request_not_both.
    + apply list_elem_of_In in Hop. simpl in Hop.
      destruct Hop as [<- | [<- | [<- | []]]].
      * rewrite SearchEvents_run. destruct (clients s !! d); [| done].
        apply paged_request_not_both.
      * rewrite NextPage_run.
        destruct (turn_page_cases w p client Next s)
          as [[url Hrun] | [_ [[msg Hr] | [(pv & _ & _ & Hr) | (pv & c & _ & _ & _ & _ & Hr)]]]];
          rewrite ?Hrun, ?Hr; try done. apply paged_request_not_both.
      * rewrite PreviousPage_run.
        destruct (turn_page_cases w p client Prev s)
          as [[url Hrun] | [_ [[msg Hr] | [(pv & _ & _ & Hr) | (pv & c & _ & _ & _ & _ & Hr)]]]];
          rewrite ?Hrun, ?Hr; try done. apply paged_request_not_both.
  - rewrite NextPage_run. apply turn_page_nil_nil.
  - rewrite PreviousPage_run. apply turn_page_nil_nil.
Qed.

(** X8. No call makes more than one request: the requests of the final
    state are those of the initial state, followed by at most one.  A call
    that makes none leaves the list of open bodies and the pages as they
    were. *)
Theorem at_most_one_request (w : World) (s : State) (d p client : loc)
    (id : string) (q : QueryParams) :
  (requests (GetEvent w d id s).2 = requests s
   ∧ bodies (GetEvent w d id s).2 = bodies s
   ∧ pages (GetEvent w d id s).2 = pages s
   ∨ ∃ url, requested s (GetEvent w d id s).2 url)
  ∧ ∀ op, op ∈ [SearchEvents w d q; NextPage w p client; PreviousPage w p client] →
      (op s).2 = s ∨ ∃ url, requested s (op s).2 url.
Proof.
  split.
  - rewrite GetEvent_run. destruct (clients s !! d) as [c|]; [| by left].
    right. eexists. by apply (document_request_requested w _ (add_log _ s)).
  - intros op Hop.
    destruct (paged_op_cases _ _ _ _ _ s _ Hop) as [[url Hrun] | [Hs _]];
      [right | by left].
    exists url. rewrite Hrun. apply paged_request_is_requested.
Qed.

(** ** Redacting the URLs the client builds *)

Lemma JoinPath_with_RawQuery (u : URL) (q : string) (elem : list string) :
  JoinPath (with_RawQuery u q) elem = with_RawQuery (JoinPath u elem) q.
Proof.
  unfold JoinPath, setPath.
  change (EscapedPath (with_RawQuery u q)) with (EscapedPath u).
  destruct (unescape encodePath _); [| done].
  by destruct (String.eqb _ _).
Qed.

Lemma EventsUrl_keyed (d : DiscoveryClient) :
  ApiKey d ≠ "" →
  EventsUrl d = with_key (JoinPath (ApiUrl d) ["events"]) (ApiKey d).
Proof. intros Hk%String.eqb_neq. unfold EventsUrl. by rewrite Hk. Qed.

Lemma VenuesUrl_keyed (d : DiscoveryClient) :
  ApiKey d ≠ "" →
  VenuesUrl d = with_key (JoinPath (ApiUrl d) ["venues"]) (ApiKey d).
Proof. intros Hk%String.eqb_neq. unfold VenuesUrl. by rewrite Hk. Qed.

(** redacting a URL whose query was encoded from values with a key *)
Lemma redactUrl_keyed (u : URL) (v : Values) (key : string) :
  proper v →
  redactUrl (with_RawQuery u (Values.Encode (<["apikey" := [key]]> v)))
  = URL_String (with_RawQuery u (Values.Encode (<["apikey" := ["REDACTED"]]> v))).
Proof.
  intros Hv. unfold redactUrl.
  rewrite Query_with_Encode by apply (proper_Set v "apikey" key Hv).
  unfold Values.Has. rewrite lookup_insert_eq.
  rewrite bool_decide_eq_true_2 by done.
  unfold Values.Set_. by rewrite insert_insert_eq.
Qed.

Lemma redactUrl_with_key (u : URL) (key : string) :
  redactUrl (with_key u key) = URL_String (with_key u "REDACTED").
Proof. apply redactUrl_keyed, proper_Query. Qed.

(** the values [UpdateURL] encodes, with the key put in last *)
Lemma updated_query_key (q : QueryParams) (u : URL) (apikey : string) :
  updated_query q u apikey = <["apikey" := [apikey]]> (updated_query q u "").
Proof.
  apply map_eq. intros k. rewrite updated_query_lookup.
  destruct (decide (k = "apikey")) as [->|Hne].
  - rewrite lookup_insert_eq.
    destruct (_ !! "apikey") as [val|] eqn:Hk.
    + apply Unmarshal_Marshal_lookup in Hk as (v & Hin & _).
      by apply apikey_is_no_field in Hin.
    + unfold Values.Set_. by rewrite lookup_insert_eq.
  - rewrite lookup_insert_ne by done. rewrite updated_query_lookup.
    unfold Values.Set_, Values.at_key. by rewrite !lookup_insert_ne.
Qed.

Lemma updated_query_base (q : QueryParams) (u u' : URL) (apikey : string) :
  Query u' = <["apikey" := [apikey]]> (Query u) →
  updated_query q u' apikey = updated_query q u apikey.
Proof.
  intros Hq. unfold updated_query, Values.Set_. by rewrite Hq, insert_insert_eq.
Qed.

(** X9. What [redactUrl] returns for a URL the client builds does not
    depend on the key: for the URL [SearchEvents] requests (the events URL
    after [UpdateURL]) and the URL [NextPage] and [PreviousPage] request (the
    resolved link with the key set), with any two keys; and for the events
    URL, the venues URL and the URL [GetEvent] requests, with any two keys
    that are not empty. *)
Theorem redaction_hides_key (base : URL) (k1 k2 : string) :
  (∀ q, redactUrl <$> (UpdateURL q (EventsUrl (mkClient base k1)) k1).1
        = redactUrl <$> (UpdateURL q (EventsUrl (mkClient base k2)) k2).1)
  ∧ (∀ rel, redactUrl (with_key rel k1) = redactUrl (with_key rel k2))
  ∧ (k1 ≠ "" → k2 ≠ "" →
     redactUrl (EventsUrl (mkClient base k1)) = redactUrl (EventsUrl (mkClient base k2))
     ∧ redactUrl (VenuesUrl (mkClient base k1)) = redactUrl (VenuesUrl (mkClient base k2))
     ∧ ∀ id, redactUrl (JoinPath (EventsUrl (mkClient base k1)) [id])
             = redactUrl (JoinPath (EventsUrl (mkClient base k2)) [id])).
Proof.
  split; [| split].
  - intros q. rewrite !UpdateURL_eq. simpl. f_equal.
    assert (Hred : ∀ k,
      redactUrl (with_RawQuery (EventsUrl (mkClient base k))
                   (Values.Encode (updated_query q (EventsUrl (mkClient base k)) k)))
      = URL_String (with_RawQuery (JoinPath base ["events"])
                      (Values.Encode (<["apikey" := ["REDACTED"]]>
                                        (updated_query q base ""))))).
    { intros k.
      assert (Hq : updated_query q (EventsUrl (mkClient base k)) k
                   = <["apikey" := [k]]> (updated_query q base "")).
      { destruct (String.eqb_spec k "") as [Hk|Hk].
        - rewrite <- updated_query_key. unfold updated_query, EventsUrl. simpl.
          apply String.eqb_eq in Hk. by rewrite Hk, JoinPath_Query.
        - rewrite <- updated_query_key. apply updated_query_base.
          rewrite EventsUrl_keyed by done. simpl.
          by rewrite with_key_Query, JoinPath_Query. }
      rewrite Hq, redactUrl_keyed by apply proper_updated_query.
      unfold EventsUrl. simpl. by destruct (String.eqb k ""). }
    by rewrite !Hred.
  - intros rel. by rewrite !redactUrl_with_key.
  - intros Hk1 Hk2.
    rewrite !EventsUrl_keyed, !VenuesUrl_keyed by done. simpl.
    split; [by rewrite !redactUrl_with_key |].
    split; [by rewrite !redactUrl_with_key |].
    intros id. unfold with_key, Values.Set_. rewrite !JoinPath_with_RawQuery.
    by rewrite !redactUrl_keyed by apply proper_Query.
Qed.

(** the events URL of the public endpoint, for two keys *)
Lemma redaction_hides_key_witness :
  redactUrl (EventsUrl (mkClient DiscoveryApiUrl "k3y"))
  = redactUrl (EventsUrl (mkClient DiscoveryApiUrl "s3cr3t"))
  ∧ redactUrl (EventsUrl (mkClient DiscoveryApiUrl "k3y"))
    = "https://app.ticketmaster.com/discovery/v2/events?apikey=REDACTED".
Proof.
  destruct (redaction_hides_key DiscoveryApiUrl "k3y" "s3cr3t") as (_ & _ & Hurls).
  destruct Hurls as (Hevents & _); [discriminate | discriminate |].
  split; [exact Hevents |].
  rewrite Hevents. vm_compute. reflexivity.
Defined.

(** ** The URLs [GetEvent] and [SearchEvents] request *)

Lemma Contains_refl (s : string) : Strings.Contains s s.
Proof. exists "", "". by rewrite append_nil_l, append_nil_r. Qed.

Lemma Contains_trans (a b c : string) :
  Strings.Contains a b → Strings.Contains b c → Strings.Contains a c.
Proof.
  intros (p1 & q1 & ->) (p2 & q2 & ->).
  exists (p1 +:+ p2), (q2 +:+ q1). by rewrite !append_assoc.
Qed.

Lemma Contains_app_l (a b sub : string) :
  Strings.Contains a sub → Strings.Contains (a +:+ b) sub.
Proof.
  intros (p & q & ->). exists p, (q +:+ b). by rewrite !append_assoc.
Qed.

Lemma Contains_app_r (a b sub : string) :
  Strings.Contains b sub → Strings.Contains (a +:+ b) sub.
Proof.
  intros (p & q & ->). exists (a +:+ p), q. by rewrite !append_assoc.
Qed.

Lemma Contains_cons (c : ascii) (b sub : string) :
  Strings.Contains b sub → Strings.Contains (String c b) sub.
Proof.
  intros (p & q & ->). exists (String c p), q. by rewrite append_cons.
Qed.

Lemma Join_Contains (sep : ascii) (l : list string) (x : string) :
  x ∈ l → Strings.Contains (Strings.Join sep l) x.
Proof.
  induction l as [|y l IH]; [by intros ?%elem_of_nil |].
  intros [->|Hin]%elem_of_cons.
  - destruct l as [|z l]; [apply Contains_refl |].
    apply Contains_app_l, Contains_refl.
  - destruct l as [|z l]; [by apply elem_of_nil in Hin |].
    change (Strings.Join sep (y :: z :: l))
      with (y +:+ String sep (Strings.Join sep (z :: l))).
    by apply Contains_app_r, Contains_cons, IH.
Qed.

(** a value of [v] is in [v.Encode()], as [key=value], both escaped *)
Lemma Encode_Contains (v : Values) (k x : string) (xs : list string) :
  v !! k = Some xs → x ∈ xs →
  Strings.Contains (Values.Encode v) (QueryEscape k +:+ String "=" (QueryEscape x)).
Proof.
  intros Hk Hx. unfold Values.Encode. apply Join_Contains.
  apply list_elem_of_bind. exists k. split.
  - unfold Values.encode_key, Values.at_key. rewrite Hk. simpl.
    apply list_elem_of_fmap. by exists x.
  - apply sorted_keys_spec. by rewrite Hk.
Qed.

(** a query string that is not empty is part of the string of the URL *)
Lemma URL_String_Contains_query (u : URL) (sub : string) :
  sub ≠ "" → Strings.Contains (RawQuery u) sub →
  Strings.Contains (URL_String u) sub.
Proof.
  intros Hsub Hin. unfold URL_String, String_query.
  assert (Hne : nonempty (RawQuery u) = true).
  { unfold nonempty. destruct (String.eqb_spec (RawQuery u) "") as [Heq|]; [| done].
    rewrite Heq in Hin. destruct Hin as (p & q & Hin).
    destruct p; [| by rewrite append_cons in Hin].
    rewrite append_nil_l in Hin.
    destruct sub; [done | by rewrite append_cons in Hin]. }
  rewrite Hne, orb_true_r.
  by apply Contains_app_r, Contains_app_l, Contains_cons.
Qed.

Lemma EventsUrl_endpoint (c : DiscoveryClient) : endpoint_of c "events" (EventsUrl c).
Proof. apply (endpoint_of_intro c "events"), plain_events. Qed.

Lemma EventsUrl_RawPath (c : DiscoveryClient) (segs : list string) :
  RawPath (ApiUrl c) = "" → Path (ApiUrl c) = rooted_path segs →
  Forall plain_segment segs →
  RawPath (EventsUrl c) = "" ∧ Path (EventsUrl c) = rooted_path (segs ++ ["events"]).
Proof.
  intros Hraw Hpath Hsegs. unfold EventsUrl. cbv zeta.
  rewrite (JoinPath_plain _ segs) by (done || apply plain_events).
  by destruct (String.eqb _ _).
Qed.

(** X10. With a client [c], [GetEvent] makes one request, for the string
    of the events URL with the id joined to its path, and the first line it
    logs is that string after "Querying: ".  The query of that URL is the one
    of the events URL: with a key configured, [apikey] holds the key; with
    none, the query string is the base URL's own.  For a base path
    [/e1/.../en] of plain segments and a plain id, the path requested is
    [/e1/.../en/events/id]. *)
Theorem GetEvent_request (w : World) (s : State) (d : loc) (id : string)
    (c : DiscoveryClient) :
  clients s !! d = Some c →
  let u := JoinPath (EventsUrl c) [id] in
  requested s (GetEvent w d id s).2 (URL_String u)
  ∧ (∃ rest, logged (GetEvent w d id s).2
             = logged s ++ ("Querying: " +:+ URL_String u) :: rest)
  ∧ same_but_path (EventsUrl c) u
  ∧ (ApiKey c ≠ "" → param u "apikey" = Some [ApiKey c])
  ∧ (ApiKey c = "" → RawQuery u = RawQuery (ApiUrl c))
  ∧ (∀ segs, RawPath (ApiUrl c) = "" → Path (ApiUrl c) = rooted_path segs →
       Forall plain_segment segs → plain_segment id →
       Path u = rooted_path (segs ++ ["events"; id])).
Proof.
  intros Hc u.
  destruct (EventsUrl_endpoint c) as (_ & _ & Hkey & Hnokey).
  split; [| split; [| split; [| split; [| split]]]].
  - rewrite GetEvent_run, Hc. cbv zeta.
    by apply (document_request_requested w _ (add_log _ s)).
  - rewrite GetEvent_run, Hc. cbv zeta. fold u.
    unfold document_request.
    destruct (transport w (URL_String u)) as [r|e|r e]; simpl.
    + destruct (reply_status r =? 200)%Z; [destruct (decode_Document w _ _) |];
        simpl; rewrite <- app_assoc; eauto.
    + by exists [].
    + rewrite <- app_assoc. eauto.
  - apply JoinPath_same_but_path.
  - intros Hk. unfold param, u. rewrite JoinPath_Query. by apply Hkey.
  - intros Hk. unfold u.
    destruct (JoinPath_same_but_path (EventsUrl c) [id]) as (_&_&_&_&_&_&->&_).
    by apply Hnokey.
  - intros segs Hraw Hpath Hsegs Hid. unfold u.
    destruct (EventsUrl_RawPath c segs Hraw Hpath Hsegs) as [Hraw' Hpath'].
    rewrite (JoinPath_plain _ (segs ++ ["events"])); try done.
    + by rewrite <- app_assoc.
    + apply Forall_app. split; [done |]. apply Forall_singleton, plain_events.
Qed.

(** the event of the documentation's example, on the public endpoint *)
Lemma GetEvent_request_witness :
  let w := Mock.world (GetOk (mkReply 200 "{}" None)) in
  let s := Mock.state (Mock.page 20 3 "" "") in
  let u := JoinPath (EventsUrl Mock.client) ["Z7r9jZ1AdFY4P"] in
  requested s (GetEvent w 1%positive "Z7r9jZ1AdFY4P" s).2
    "https://app.ticketmaster.com/discovery/v2/events/Z7r9jZ1AdFY4P?apikey=k3y"
  ∧ param u "apikey" = Some ["k3y"]
  ∧ Path u = "/discovery/v2/events/Z7r9jZ1AdFY4P".
Proof.
  intros w s u.
  destruct (GetEvent_request w s 1%positive "Z7r9jZ1AdFY4P" Mock.client eq_refl)
    as (Hreq & _ & _ & Hkey & _ & Hpath).
  split; [exact Hreq |]. split; [apply Hkey; discriminate |].
  apply (Hpath ["discovery"; "v2"]); [reflexivity | reflexivity | |].
  - repeat constructor; (discriminate || reflexivity).
  - repeat split; (discriminate || reflexivity).
Defined.

(** X11. [GetEvent] writes the key to the log: with a client whose key is
    not empty, the line the call logs first holds the URL it requests, and
    that URL holds [apikey=] followed by the key in its escaped form.
    [redactUrl] is not applied. *)
Theorem GetEvent_logs_the_key (w : World) (s : State) (d : loc) (id : string)
    (c : DiscoveryClient) :
  clients s !! d = Some c → ApiKey c ≠ "" →
  ∃ url rest,
    requested s (GetEvent w d id s).2 url
    ∧ logged (GetEvent w d id s).2 = logged s ++ ("Querying: " +:+ url) :: rest
    ∧ Strings.Contains url ("apikey=" +:+ QueryEscape (ApiKey c))
    ∧ QueryUnescape (QueryEscape (ApiKey c)) = Some (ApiKey c).
Proof.
  intros Hc Hk.
  set (u := JoinPath (EventsUrl c) [id]).
  assert (Hrun : GetEvent w d id s
                 = document_request w (URL_String u)
                     (add_log ("Querying: " +:+ URL_String u) s))
    by (by rewrite GetEvent_run, Hc).
  exists (URL_String u).
  assert (Hlog : ∃ rest, logged (GetEvent w d id s).2
                         = logged s ++ ("Querying: " +:+ URL_String u) :: rest).
  { rewrite Hrun. unfold document_request.
    destruct (transport w (URL_String u)) as [r|e|r e]; simpl.
    - destruct (reply_status r =? 200)%Z; [destruct (decode_Document w _ _) |];
        simpl; rewrite <- app_assoc; eauto.
    - by exists [].
    - rewrite <- app_assoc. eauto. }
  destruct Hlog as [rest Hlog]. exists rest.
  split; [| split; [done | split; [| apply QueryUnescape_QueryEscape]]].
  { rewrite Hrun. by apply (document_request_requested w _ (add_log _ s)). }
  apply URL_String_Contains_query; [done |].
  unfold u. rewrite EventsUrl_keyed by done. unfold with_key.
  rewrite JoinPath_with_RawQuery. simpl.
  apply (Encode_Contains _ "apikey" (ApiKey c) [ApiKey c]).
  - unfold Values.Set_. apply lookup_insert_eq.
  - apply list_elem_of_In. by left.
Qed.

Lemma GetEvent_logs_the_key_witness :
  let w := Mock.world (GetOk (mkReply 200 "{}" None)) in
  let s := Mock.state (Mock.page 20 3 "" "") in
  ∃ url rest,
    requested s (GetEvent w 1%positive "Z7r9jZ1AdFY4P" s).2 url
    ∧ logged (GetEvent w 1%positive "Z7r9jZ1AdFY4P" s).2
      = logged s ++ ("Querying: " +:+ url) :: rest
    ∧ Strings.Contains url "apikey=k3y".
Proof.
  intros w s.
  destruct (GetEvent_logs_the_key w s 1%positive "Z7r9jZ1AdFY4P" Mock.client)
    as (url & rest & Hreq & Hlog & Hin & _); [reflexivity | discriminate |].
  assert (Hkey : "apikey=" +:+ QueryEscape (ApiKey Mock.client) = "apikey=k3y")
    by (vm_compute; reflexivity).
  rewrite Hkey in Hin.
  exists url, rest. split; [exact Hreq | split; [exact Hlog | exact Hin]].
Defined.

Lemma updated_query_apikey (q : QueryParams) (u : URL) (apikey : string) :
  updated_query q u apikey !! "apikey" = Some [apikey].
Proof. rewrite updated_query_key. apply lookup_insert_eq. Qed.

Lemma updated_query_field (q : QueryParams) (u : URL) (apikey name val : string) :
  (name, val) ∈ QP.fields q →
  updated_query q u apikey !! name
  = if String.eqb val "" then Query u !! name
    else Some (Values.at_key (Query u) name ++ [utf8.coerce val]).
Proof.
  intros Hin. rewrite updated_query_lookup.
  assert (Hname : name ≠ "apikey")
    by (intros ->; by apply apikey_is_no_field in Hin).
  unfold Values.at_key, Values.Set_. rewrite lookup_insert_ne by done.
  destruct (String.eqb_spec val "") as [->|Hval].
  - destruct (_ !! name) as [y|] eqn:Hy; [| done].
    apply Unmarshal_Marshal_lookup in Hy as (v & Hv & Hne & _).
    by rewrite (field_unique q name "" v Hin Hv) in Hne.
  - assert (Hy : (json.Unmarshal (json.Marshal q).1).1 !! name
                 = Some (utf8.coerce val))
      by (apply Unmarshal_Marshal_lookup; by exists val).
    by rewrite Hy.
Qed.

Lemma updated_query_other (q : QueryParams) (u : URL) (apikey k : string) :
  k ≠ "apikey" → k ∉ QP.names → updated_query q u apikey !! k = Query u !! k.
Proof.
  intros Hk Hnames. rewrite updated_query_lookup.
  destruct (_ !! k) as [y|] eqn:Hy.
  - apply Unmarshal_Marshal_lookup in Hy as (v & Hv & _).
    apply (list_elem_of_fmap_2 fst) in Hv. by rewrite QP_fields_names in Hv.
  - unfold Values.Set_. by rewrite lookup_insert_ne.
Qed.

Lemma EventsUrl_Query_other (c : DiscoveryClient) (k : string) :
  k ≠ "apikey" → Query (EventsUrl c) !! k = Query (ApiUrl c) !! k.
Proof.
  intros Hk. destruct (EventsUrl_endpoint c) as (_ & _ & Hkey & Hnokey).
  destruct (String.eqb_spec (ApiKey c) "") as [He|Hne].
  - destruct (Hnokey He) as [Hraw _]. unfold Query. by rewrite Hraw.
  - destruct (Hkey Hne) as [-> _]. by rewrite lookup_insert_ne.
Qed.

(** X12. With a client [c], [SearchEvents] makes one request, for a URL
    that is the events URL but for its query.  In that query, [apikey] holds
    the one value that is the client's key, and it is there also when the key
    is empty (then as [apikey=], where [GetEvent] sends none); every search
    field that is not empty is there under its wire name, after the values the
    base URL already had under that name; every other parameter is as in the
    base URL. *)
Theorem SearchEvents_request (w : World) (s : State) (d : loc) (q : QueryParams)
    (c : DiscoveryClient) :
  clients s !! d = Some c →
  ∃ u : URL,
    requested s (SearchEvents w d q s).2 (URL_String u)
    ∧ with_RawQuery u "" = with_RawQuery (JoinPath (ApiUrl c) ["events"]) ""
    ∧ param u "apikey" = Some [ApiKey c]
    ∧ (∀ name val, (name, val) ∈ QP.fields q →
         param u name
         = if String.eqb val "" then param (ApiUrl c) name
           else Some (Values.at_key (Query (ApiUrl c)) name ++ [utf8.coerce val]))
    ∧ (∀ k, k ≠ "apikey" → k ∉ QP.names → param u k = param (ApiUrl c) k)
    ∧ (∀ segs, RawPath (ApiUrl c) = "" → Path (ApiUrl c) = rooted_path segs →
         Forall plain_segment segs →
         Path u = rooted_path (segs ++ ["events"])).
Proof.
  intros Hc.
  exists (with_RawQuery (EventsUrl c)
            (Values.Encode (updated_query q (EventsUrl c) (ApiKey c)))).
  destruct (EventsUrl_endpoint c) as (Hsame & Hpath & _).
  split; [| split; [| split; [| split; [| split]]]].
  - rewrite SearchEvents_run, Hc. apply paged_request_is_requested.
  - exact Hsame.
  - unfold param. rewrite Query_with_Encode by apply proper_updated_query.
    apply updated_query_apikey.
  - intros name val Hin.
    assert (Hname : name ≠ "apikey")
      by (intros ->; by apply apikey_is_no_field in Hin).
    unfold param. rewrite Query_with_Encode by apply proper_updated_query.
    rewrite (updated_query_field _ _ _ _ _ Hin). unfold Values.at_key.
    by rewrite EventsUrl_Query_other.
  - intros k Hk Hnames.
    unfold param. rewrite Query_with_Encode by apply proper_updated_query.
    rewrite updated_query_other by done. by apply EventsUrl_Query_other.
  - intros segs Hraw Hp Hsegs. simpl. by apply Hpath.
Qed.

(** a search for a keyword in a city, with a client that has no key *)
Lemma SearchEvents_request_witness :
  let q := QP.mk "" "" "" "" "" "jazz" "" "" "" "" "" "" "" "" "" "" "" "" ""
                 "" "" "" "" "" "" in
  let w := Mock.world (GetOk (mkReply 200 "{}" None)) in
  let s := mkState ∅ {[ 1%positive := mkClient DiscoveryApiUrl "" ]} ∅ [] [] in
  ∃ u : URL,
    requested s (SearchEvents w 1%positive q s).2 (URL_String u)
    ∧ param u "apikey" = Some [""]
    ∧ param u "keyword" = Some ["jazz"]
    ∧ Path u = "/discovery/v2/events".
Proof.
  intros q w s.
  destruct (SearchEvents_request w s 1%positive q (mkClient DiscoveryApiUrl "") eq_refl)
    as (u & Hreq & _ & Hkey & Hfield & _ & Hpath).
  exists u. split; [exact Hreq |]. split; [exact Hkey |]. split.
  - rewrite (Hfield "keyword" "jazz") by by_computation. vm_compute. reflexivity.
  - apply (Hpath ["discovery"; "v2"]); [reflexivity | reflexivity |].
    repeat constructor; (discriminate || reflexivity).
Defined.

(** ** The order of the loop of [UpdateURL] *)

(** the loop over a list of entries, as rounds of [add_field] *)
Lemma range_as_foldr (base : Values) (order : list (string * string)) :
  foldl (λ query '(field, val),
           if negb (String.eqb val "") then Values.Add query field val else query)
        base order
  = foldr (uncurry add_field) base (reverse order).
Proof.
  revert base. induction order as [|[field val] order IH]; intros base; [done |].
  simpl. by rewrite IH, reverse_cons, foldr_app.
Qed.

(** X13. The result of [UpdateURL] does not depend on the order in which
    the loop over the map of fields takes its entries, which Go leaves open:
    every order of the entries gives the same URL, the one [UpdateURL] is
    modelled to return. *)
Theorem UpdateURL_order_is_immaterial (order : list (string * string))
    (q : QueryParams) (u : URL) (apikey : string) :
  order ≡ₚ map_to_list (json.Unmarshal (json.Marshal q).1).1 →
  UpdateURL_ranging order q u apikey = UpdateURL q u apikey.
Proof.
  intros Horder. rewrite UpdateURL_eq. unfold UpdateURL_ranging. simpl.
  do 3 f_equal. unfold updated_query.
  rewrite <- (UpdateURL_any_order _ _ (reverse order))
    by (by rewrite reverse_Permutation).
  by rewrite range_as_foldr.
Qed.

(** three fields, taken in the order of the map and in the opposite order *)
Lemma UpdateURL_order_is_immaterial_witness :
  let q := QP.mk "" "date,asc" "" "20" "" "rock & roll" "" "" "" "" "" "" "" ""
                 "" "" "" "" "" "" "" "" "" "" "" in
  let qp := (json.Unmarshal (json.Marshal q).1).1 in
  UpdateURL_ranging (reverse (map_to_list qp)) q DiscoveryApiUrl "k3y"
  = UpdateURL_ranging (map_to_list qp) q DiscoveryApiUrl "k3y".
Proof.
  intros q qp.
  rewrite (UpdateURL_order_is_immaterial (reverse (map_to_list qp)))
    by apply reverse_Permutation.
  by rewrite (UpdateURL_order_is_immaterial (map_to_list qp)).
Defined.

(** ** The id of [GetEvent] is joined as a path *)

Lemma clean_rooted_dotdot (l : list string) (st : nat * list string) :
  st.1 = 0 → (foldl (path.clean_step true) st l).1 = 0.
Proof.
  revert st. induction l as [|e l IH]; intros [dotdot out] Hst; [done |].
  simpl. apply IH. simpl in *. unfold path.clean_step.
  repeat case_match; simplify_eq/=; done.
Qed.

(** [path.Clean] of a rooted path, by its elements *)
Lemma Clean_rooted_Join (l : list string) :
  l ≠ [] → Forall (λ x, Strings.ContainsByte "/" x = false) l →
  path.Clean (String "/" (Strings.Join "/" l))
  = rooted_path (rev (foldl (path.clean_step true) (0, []) l).2).
Proof.
  intros Hne Hl. unfold path.Clean.
  simpl String.eqb. simpl Strings.HasPrefixByte. cbv iota.
  rewrite Split_cons_sep, Split_Join by done. simpl foldl.
  pose proof (clean_rooted_dotdot l (0, []) eq_refl) as Hdd.
  destruct (foldl (path.clean_step true) (0, []) l) as [dotdot out].
  simpl in Hdd. subst dotdot. reflexivity.
Qed.

Lemma HasSuffixByte_app (c : ascii) (a b : string) :
  b ≠ "" → Strings.HasSuffixByte c (a +:+ b) = Strings.HasSuffixByte c b.
Proof.
  intros Hb. induction a as [|d a IH]; [by rewrite append_nil_l |].
  rewrite append_cons. simpl. rewrite IH.
  destruct (a +:+ b) eqn:Hab; [| done].
  destruct a; [rewrite append_nil_l in Hab; done | by rewrite append_cons in Hab].
Qed.

(** [u.JoinPath(id)] for a plain path [/e1/.../en] and an id made of the
    pieces [pieces] with slashes between them: the pieces are walked from
    [/e1/.../en] on, as [path.Clean] walks them. *)
Lemma JoinPath_walk (u : URL) (segs pieces result : list string) :
  RawPath u = "" → Path u = rooted_path segs →
  Forall plain_segment segs → segs ≠ [] →
  pieces ≠ [] → Forall (λ x, Strings.ContainsByte "/" x = false) pieces →
  Strings.HasSuffixByte "/" (Strings.Join "/" pieces) = false →
  (foldl (path.clean_step true) (0, rev segs) pieces).2 = rev result →
  Forall plain_segment result →
  JoinPath u [Strings.Join "/" pieces] = with_Path u (rooted_path result) "".
Proof.
  intros Hraw Hpath Hsegs Hne Hpieces Hslash Hsuffix Hwalk Hresult.
  assert (Hesc : EscapedPath u = rooted_path segs).
  { unfold EscapedPath. rewrite Hraw, Hpath. simpl.
    by rewrite escape_safe by by apply Join_safe. }
  unfold JoinPath. rewrite Hesc. simpl Strings.HasPrefixByte. cbv iota zeta.
  assert (Hjoin : path.Join [rooted_path segs; Strings.Join "/" pieces]
                  = rooted_path result).
  { unfold path.Join. simpl.
    assert (Hcat : ∀ l, l ≠ [] →
              Strings.Join "/" segs +:+ String "/" (Strings.Join "/" l)
              = Strings.Join "/" (segs ++ l)).
    { clear -Hne. intros l Hl. induction segs as [|x segs IH]; [done |].
      destruct segs as [|y segs].
      - destruct l; done.
      - change (Strings.Join "/" (x :: y :: segs))
          with (x +:+ String "/" (Strings.Join "/" (y :: segs))).
        change (Strings.Join "/" ((x :: y :: segs) ++ l))
          with (x +:+ String "/" (Strings.Join "/" ((y :: segs) ++ l))).
        rewrite <- IH by done. by rewrite append_assoc, append_cons. }
    unfold rooted_path at 1. rewrite append_cons, Hcat by done.
    rewrite Clean_rooted_Join.
    - rewrite foldl_app, clean_plain by done. rewrite app_nil_r, Hwalk.
      by rewrite rev_involutive.
    - by destruct segs.
    - apply Forall_app. split; [| done].
      eapply Forall_impl; [exact Hsegs |]. apply plain_segment_no_slash. }
  rewrite Hjoin. simpl List.last. rewrite Hsuffix. simpl andb. cbv iota.
  unfold setPath.
  rewrite unescape_safe, escape_safe by by apply rooted_path_safe.
  by rewrite String.eqb_refl.
Qed.

Lemma plain_segment_eqb (e : string) :
  plain_segment e →
  String.eqb e "" = false ∧ String.eqb e "." = false ∧ String.eqb e ".." = false.
Proof. intros (H1 & H2 & H3 & _). by rewrite <- !String.eqb_neq in *. Qed.

Lemma plain_segment_no_suffix (e : string) :
  plain_segment e → Strings.HasSuffixByte "/" e = false.
Proof. intros He. by apply HasSuffixByte_absent, plain_segment_no_slash. Qed.

Lemma events_path (c : DiscoveryClient) (segs : list string) :
  RawPath (ApiUrl c) = "" → Path (ApiUrl c) = rooted_path segs →
  Forall plain_segment segs →
  Forall plain_segment (segs ++ ["events"]) ∧ segs ++ ["events"] ≠ [].
Proof.
  intros _ _ Hsegs. split; [| by destruct segs].
  apply Forall_app. split; [done |]. apply Forall_singleton, plain_events.
Qed.

(** X14. [GetEvent] joins the id to the path of the events URL as a path,
    not as one segment, and does not check it.  For a client [c] with a base
    path [/e1/.../en] of plain segments: the empty id requests the events URL
    itself; the id [../name] requests [/e1/.../en/name], so [../venues] the
    venues URL; and an id [a/b] requests [/e1/.../en/events/a/b]. *)
Theorem GetEvent_id_is_a_path (w : World) (s : State) (d : loc)
    (c : DiscoveryClient) (segs : list string) :
  clients s !! d = Some c →
  RawPath (ApiUrl c) = "" → Path (ApiUrl c) = rooted_path segs →
  Forall plain_segment segs →
  requested s (GetEvent w d "" s).2 (URL_String (EventsUrl c))
  ∧ requested s (GetEvent w d "../venues" s).2 (URL_String (VenuesUrl c))
  ∧ (∀ name, plain_segment name →
       requested s (GetEvent w d ("../" +:+ name) s).2
         (URL_String (with_Path (EventsUrl c) (rooted_path (segs ++ [name])) "")))
  ∧ (∀ a b, plain_segment a → plain_segment b →
       requested s (GetEvent w d (a +:+ "/" +:+ b) s).2
         (URL_String (with_Path (EventsUrl c)
                        (rooted_path (segs ++ ["events"; a; b])) ""))).
Proof.
  intros Hc Hraw Hpath Hsegs.
  destruct (EventsUrl_RawPath c segs Hraw Hpath Hsegs) as [Hraw' Hpath'].
  destruct (events_path c segs Hraw Hpath Hsegs) as [Hsegs' Hne'].
  assert (Hreq : ∀ id, requested s (GetEvent w d id s).2
                         (URL_String (JoinPath (EventsUrl c) [id]))).
  { intros id. rewrite GetEvent_run, Hc. cbv zeta.
    by apply (document_request_requested w _ (add_log _ s)). }
  assert (Hup : ∀ name, plain_segment name →
            JoinPath (EventsUrl c) ["../" +:+ name]
            = with_Path (EventsUrl c) (rooted_path (segs ++ [name])) "").
  { intros name Hname.
    destruct (plain_segment_eqb name Hname) as (Hn1 & Hn2 & Hn3).
    apply (JoinPath_walk _ (segs ++ ["events"]) [".."; name]); try done.
    - repeat constructor. by apply plain_segment_no_slash.
    - change (Strings.Join "/" [".."; name]) with ("../" +:+ name).
      rewrite HasSuffixByte_app by by destruct Hname.
      by apply plain_segment_no_suffix.
    - rewrite rev_app_distr. simpl. rewrite Hn1, Hn2, Hn3. simpl.
      by rewrite rev_app_distr.
    - apply Forall_app. split; [done | by apply Forall_singleton]. }
  split; [| split; [| split]].
  - specialize (Hreq "").
    assert (Hjoin : JoinPath (EventsUrl c) [""] = EventsUrl c).
    { rewrite (JoinPath_walk _ (segs ++ ["events"]) [""] (segs ++ ["events"]));
        try done.
      - rewrite <- Hpath'. revert Hraw'. clear.
        by destruct (EventsUrl c); simpl; intros ->.
      - by repeat constructor. }
    by rewrite Hjoin in Hreq.
  - specialize (Hreq "../venues").
    change "../venues" with ("../" +:+ "venues") in Hreq at 2.
    rewrite (Hup "venues" plain_venues) in Hreq.
    assert (Hv : with_Path (EventsUrl c) (rooted_path (segs ++ ["venues"])) ""
                 = VenuesUrl c).
    { unfold EventsUrl, VenuesUrl. cbv zeta.
      rewrite !(JoinPath_plain _ segs) by (done || apply plain_events || apply plain_venues).
      by destruct (String.eqb _ _). }
    by rewrite <- Hv.
  - intros name Hname. rewrite <- (Hup name Hname). apply Hreq.
  - intros a b Ha Hb.
    destruct (plain_segment_eqb a Ha) as (Ha1 & Ha2 & Ha3).
    destruct (plain_segment_eqb b Hb) as (Hb1 & Hb2 & Hb3).
    assert (Hjoin : JoinPath (EventsUrl c) [a +:+ "/" +:+ b]
                    = with_Path (EventsUrl c)
                        (rooted_path (segs ++ ["events"; a; b])) "");
      [| rewrite <- Hjoin; apply Hreq].
    apply (JoinPath_walk _ (segs ++ ["events"]) [a; b]); try done.
    + repeat constructor; by apply plain_segment_no_slash.
    + change (Strings.Join "/" [a; b]) with (a +:+ String "/" b).
      change (String "/" b) with ("/" +:+ b). rewrite <- append_assoc.
      rewrite HasSuffixByte_app by by destruct Hb.
      by apply plain_segment_no_suffix.
    + simpl. rewrite Ha1, Ha2, Ha3. simpl. rewrite Hb1, Hb2, Hb3. simpl.
      by rewrite !rev_app_distr.
    + apply Forall_app. split; [done |].
      apply Forall_cons_2; [apply plain_events |].
      apply Forall_cons_2; [done |]. apply Forall_cons_2; [done |].
      apply Forall_nil_2.
Qed.

(** on the public endpoint: an id that walks out of the events *)
Lemma GetEvent_id_is_a_path_witness :
  let w := Mock.world (GetOk (mkReply 200 "{}" None)) in
  let s := Mock.state (Mock.page 20 3 "" "") in
  requested s (GetEvent w 1%positive "" s).2
    "https://app.ticketmaster.com/discovery/v2/events?apikey=k3y"
  ∧ requested s (GetEvent w 1%positive "../venues" s).2
      "https://app.ticketmaster.com/discovery/v2/venues?apikey=k3y".
Proof.
  intros w s.
  destruct (GetEvent_id_is_a_path w s 1%positive Mock.client ["discovery"; "v2"])
    as (Hempty & Hvenues & _); [reflexivity | reflexivity | reflexivity | |].
  - repeat constructor; (discriminate || reflexivity).
  - split; [exact Hempty | exact Hvenues].
Defined.

(** ** What the pagination calls read of the receiver *)

Lemma paged_request_with_page w p pv' url s :
  is_Some (pages s !! p) →
  paged_request w url (with_page p pv' s)
  = ((paged_request w url s).1, with_page p pv' (paged_request w url s).2).
Proof.
  intros Hp. unfold paged_request, with_page, after_request, add_request, set_pages.
  simpl. rewrite (dom_insert_lookup_L _ _ _ Hp).
  repeat case_match; simpl; try reflexivity.
  rewrite insert_insert_ne; [reflexivity |].
  intros Heq. rewrite <- Heq, fresh_page_None in Hp. by destruct Hp.
Qed.

Lemma turn_page_with_page w p client link pv pv' s :
  pages s !! p = Some pv → same_reading link pv pv' →
  turn_page w p client link (with_page p pv' s)
  = ((turn_page w p client link s).1, with_page p pv' (turn_page w p client link s).2).
Proof.
  intros Hp (Hsize & Hnumber & Hhref).
  assert (Hsame : with_page p pv' s = with_page p pv' (with_page p pv' s)).
  { unfold with_page, set_pages. simpl. by rewrite insert_insert_eq. }
  assert (Hfix : ∀ r : Res (option loc * option error),
            (r, with_page p pv' s) = (r, with_page p pv' (with_page p pv' s)))
    by (intros r; by rewrite <- Hsame).
  unfold turn_page. simpl pages. simpl clients.
  rewrite lookup_insert_eq, Hp. unfold depth_error.
  rewrite Hsize, Hnumber, Hhref.
  destruct (1000 <=? _)%Z; simpl; [done |].
  destruct (clients s !! client) as [c|]; simpl; [| done].
  destruct (String.eqb _ _); simpl; [done |].
  destruct (page_url w c _) as [url|]; simpl; [| done].
  apply paged_request_with_page. by rewrite Hp.
Qed.

(** X15. Of the receiver, [NextPage] reads the size and the number of the
    page and the href of the next link, and nothing else ([PreviousPage]:
    the href of the previous link): on a receiver that agrees in these and
    differs in anything else (the flag [templated], the other links, the
    totals, the embedded items), the call returns the same and leaves the same
    state behind. *)
Theorem pagination_reads_three_fields (w : World) (s : State) (p client : loc)
    (pv pv' : PagedResponse) :
  pages s !! p = Some pv →
  (same_reading Next pv pv' →
   NextPage w p client (with_page p pv' s)
   = ((NextPage w p client s).1, with_page p pv' (NextPage w p client s).2))
  ∧ (same_reading Prev pv pv' →
     PreviousPage w p client (with_page p pv' s)
     = ((PreviousPage w p client s).1,
        with_page p pv' (PreviousPage w p client s).2)).
Proof.
  intros Hp. split; intros Hsame.
  - rewrite !NextPage_run. by apply (turn_page_with_page _ _ _ _ pv).
  - rewrite !PreviousPage_run. by apply (turn_page_with_page _ _ _ _ pv).
Qed.

(** a next link marked as a template, with other totals and another self
    link: the same request, the same outcome *)
Lemma pagination_reads_three_fields_witness :
  let pv := Mock.page 20 3 "/discovery/v2/events{?page,size}" "" in
  let pv' := PR.mk (mkLinks (mkLink "/discovery/v2/events?page=3" false)
                            (mkLink "/discovery/v2/events{?page,size}" true)
                            (mkLink "/discovery/v2/events?page=2" false))
                   (mkPage 20 0 0 3) Mock.nothing in
  let w := Mock.world (GetOk (mkReply 200 "{}" None)) in
  let s := Mock.state pv in
  (NextPage w 1%positive 1%positive (with_page 1%positive pv' s)).1
  = (NextPage w 1%positive 1%positive s).1
  ∧ requests (NextPage w 1%positive 1%positive (with_page 1%positive pv' s)).2
    = ["https://app.ticketmaster.com/discovery/v2/events%7B?apikey=k3y&page%2Csize%7D="].
Proof.
  intros pv pv' w s.
  destruct (pagination_reads_three_fields w s 1%positive 1%positive pv pv' eq_refl)
    as (Hnext & _).
  rewrite Hnext by (repeat split).
  split; [reflexivity |]. vm_compute. reflexivity.
Defined.

(** ** The requests of a client for the public endpoint *)

Lemma EscapedPath_plain (u : URL) (segs : list string) :
  RawPath u = "" → Path u = rooted_path segs → Forall plain_segment segs →
  EscapedPath u = rooted_path segs.
Proof.
  intros Hraw Hpath Hsegs. unfold EscapedPath. rewrite Hraw, Hpath. simpl.
  by rewrite escape_safe by by apply Join_safe.
Qed.

(** the string of a URL of the public endpoint, by its path and query *)
Lemma public_String (segs : list string) (query : string) :
  Forall plain_segment segs → query ≠ "" →
  URL_String (mkURL "https" "" None "app.ticketmaster.com" (rooted_path segs) ""
                    false false query "" "")
  = "https://app.ticketmaster.com" +:+ rooted_path segs +:+ "?" +:+ query.
Proof.
  intros Hsegs Hq. unfold URL_String, String_hier, String_query, String_fragment.
  rewrite (EscapedPath_plain _ segs) by done.
  apply String.eqb_neq in Hq. unfold nonempty. simpl. rewrite Hq. simpl.
  by rewrite append_nil_r.
Qed.

Lemma Encode_apikey (key : string) :
  Values.Encode (Values.Set_ ∅ "apikey" key) = "apikey=" +:+ QueryEscape key.
Proof. reflexivity. Qed.

Lemma EventsUrl_public (key : string) :
  key ≠ "" →
  EventsUrl (mkClient DiscoveryApiUrl key)
  = mkURL "https" "" None "app.ticketmaster.com"
          (rooted_path ["discovery"; "v2"; "events"]) ""
          false false ("apikey=" +:+ QueryEscape key) "" "".
Proof. intros Hk. by rewrite EventsUrl_keyed. Qed.

Lemma VenuesUrl_public (key : string) :
  key ≠ "" →
  VenuesUrl (mkClient DiscoveryApiUrl key)
  = mkURL "https" "" None "app.ticketmaster.com"
          (rooted_path ["discovery"; "v2"; "venues"]) ""
          false false ("apikey=" +:+ QueryEscape key) "" "".
Proof. intros Hk. by rewrite VenuesUrl_keyed. Qed.

Lemma key_pair_not_empty (key : string) : "apikey=" +:+ QueryEscape key ≠ "".
Proof. done. Qed.

Lemma plain_public (name : string) :
  plain_segment name → Forall plain_segment ["discovery"; "v2"; name].
Proof.
  intros Hname.
  apply Forall_cons_2; [repeat split; (discriminate || reflexivity) |].
  apply Forall_cons_2; [repeat split; (discriminate || reflexivity) |].
  by apply Forall_singleton.
Qed.

(** X16. The requests of a client for the public endpoint (the base URL
    [DiscoveryApiUrl]) with a key that is not empty, as strings: the events
    and venues URLs are [https://app.ticketmaster.com/discovery/v2/events]
    and [.../venues] with the query [apikey=] and the escaped key;
    [SearchEvents] without search fields requests the events URL; [GetEvent]
    with a plain id requests [.../events/id] with that query. *)
Theorem public_endpoint_requests (w : World) (s : State) (d : loc) (key id : string) :
  clients s !! d = Some (mkClient DiscoveryApiUrl key) → key ≠ "" →
  URL_String (EventsUrl (mkClient DiscoveryApiUrl key))
  = "https://app.ticketmaster.com/discovery/v2/events?apikey=" +:+ QueryEscape key
  ∧ URL_String (VenuesUrl (mkClient DiscoveryApiUrl key))
    = "https://app.ticketmaster.com/discovery/v2/venues?apikey=" +:+ QueryEscape key
  ∧ requested s (SearchEvents w d QP.empty s).2
      ("https://app.ticketmaster.com/discovery/v2/events?apikey=" +:+ QueryEscape key)
  ∧ (plain_segment id →
     requested s (GetEvent w d id s).2
       ("https://app.ticketmaster.com/discovery/v2/events/" +:+ id
        +:+ "?apikey=" +:+ QueryEscape key)).
Proof.
  intros Hc Hk.
  assert (Hevents : URL_String (EventsUrl (mkClient DiscoveryApiUrl key))
            = "https://app.ticketmaster.com/discovery/v2/events?apikey="
              +:+ QueryEscape key).
  { rewrite EventsUrl_public, public_String;
      [reflexivity | apply plain_public, plain_events | apply key_pair_not_empty | done]. }
  split; [exact Hevents |]. split; [| split].
  - rewrite VenuesUrl_public, public_String;
      [reflexivity | apply plain_public, plain_venues | apply key_pair_not_empty | done].
  - rewrite SearchEvents_run, Hc. cbn [ApiKey]. rewrite <- Hevents.
    assert (Hq : updated_query QP.empty (EventsUrl (mkClient DiscoveryApiUrl key)) key
                 = Values.Set_ ∅ "apikey" key).
    { rewrite (updated_query_base _ DiscoveryApiUrl).
      - reflexivity.
      - by rewrite EventsUrl_keyed, with_key_Query. }
    rewrite Hq, Encode_apikey, EventsUrl_public by done.
    apply paged_request_is_requested.
  - intros Hid. rewrite GetEvent_run, Hc. cbv zeta.
    rewrite EventsUrl_public by done.
    rewrite (JoinPath_plain _ ["discovery"; "v2"; "events"])
      by (done || apply plain_public, plain_events).
    assert (Hurl : URL_String
                     (with_Path
                        (mkURL "https" "" None "app.ticketmaster.com"
                               (rooted_path ["discovery"; "v2"; "events"]) ""
                               false false ("apikey=" +:+ QueryEscape key) "" "")
                        (rooted_path (["discovery"; "v2"; "events"] ++ [id])) "")
                   = "https://app.ticketmaster.com/discovery/v2/events/" +:+ id
                     +:+ "?apikey=" +:+ QueryEscape key).
    { unfold with_Path. simpl Scheme. simpl Host. simpl RawQuery.
      cbn [Opaque User OmitHost ForceQuery Fragment RawFragment].
      rewrite public_String.
      - reflexivity.
      - apply Forall_app. split; [apply plain_public, plain_events |].
        by apply Forall_singleton.
      - apply key_pair_not_empty. }
    rewrite Hurl.
    by apply (document_request_requested w _ (add_log _ s)).
Qed.

(** a key with a byte to escape *)
Lemma public_endpoint_requests_witness :
  let w := Mock.world (GetOk (mkReply 200 "{}" None)) in
  let s := mkState ∅ {[ 1%positive := mkClient DiscoveryApiUrl "k3y&more" ]} ∅ [] [] in
  requested s (SearchEvents w 1%positive QP.empty s).2
    "https://app.ticketmaster.com/discovery/v2/events?apikey=k3y%26more"
  ∧ requested s (GetEvent w 1%positive "Z7r9jZ1AdFY4P" s).2
      "https://app.ticketmaster.com/discovery/v2/events/Z7r9jZ1AdFY4P?apikey=k3y%26more".
Proof.
  intros w s.
  destruct (public_endpoint_requests w s 1%positive "k3y&more" "Z7r9jZ1AdFY4P")
    as (_ & _ & Hsearch & Hget); [reflexivity | discriminate |].
  split; [exact Hsearch |].
  apply Hget. repeat split; (discriminate || reflexivity).
Defined.
